(** * The layout state store of the full-width table plugin

    A shallow embedding of the class [TableMap] of [src/main.ts]: the store
    that keeps the view width, the wrapper width and the left gap of every
    table, and that notifies its change listeners.

    Modelling choices.
    - A JavaScript [number] is an exact rational ([Qc], rationals in lowest
      terms, so that Leibniz equality is [===]).  [clientWidth] is an
      integer and the only arithmetic is a subtraction and a halving, which
      are exact on such values; NaN and the infinities are left out.
    - A [Record<TableId, number>] is an object with string keys: an
      association list without duplicate keys, in insertion order, which is
      the order [Object.keys] enumerates (table ids are UUIDs, never
      array-index strings and never names inherited from [Object.prototype]).
    - The host environment (the DOM) is a parameter [Host].  Reading
      [document.querySelector('.cm-contentContainer')?.clientWidth] is a
      function of the host; a listener is a function on the host that
      either returns or throws.  Listeners do not re-enter the store.
    - A [throw] leaves every write made before it in place, as in
      JavaScript: an operation returns a completion together with the
      configuration reached.
    - The configuration carries a ghost list of the change events published
      so far: one entry each time a loop over the listeners of a kind is
      entered, whether or not that kind has listeners. *)

From Stdlib Require Import QArith Qcanon ZArith String List Bool Lia Lqa.
Import ListNotations.

Set Implicit Arguments.

Local Open Scope string_scope.
Local Open Scope list_scope.
Local Open Scope Qc_scope.

(** ** Numbers *)

Definition number : Type := Qc.

(** An integer number of pixels. *)
Definition px (z : Z) : number := Q2Qc (inject_Z z).

(** [x < y] on numbers. *)
Definition ltb (x y : number) : bool :=
  match x ?= y with
  | Lt => true
  | _ => false
  end.

(** [x === y] on numbers. *)
Definition eqb (x y : number) : bool := Qeq_bool x y.

(** [v !== width], where [v] is a property read from a record and may be
    [undefined] ([None]). *)
Definition strictNe (v : option number) (width : number) : bool :=
  match v with
  | None => true
  | Some old => negb (eqb old width)
  end.

(** ** Records keyed by table id *)

Definition TableId : Type := string.

Module Rec.

Definition t : Type := list (TableId * number).

Definition empty : t := [].

(** [r[k]] *)
Fixpoint get (k : TableId) (r : t) : option number :=
  match r with
  | [] => None
  | (k', v) :: r' => if String.eqb k k' then Some v else get k r'
  end.

(** [r[k] = v]: an existing key keeps its place, a new one goes last. *)
Fixpoint set (k : TableId) (v : number) (r : t) : t :=
  match r with
  | [] => [(k, v)]
  | (k', v') :: r' =>
      if String.eqb k k' then (k', v) :: r' else (k', v') :: set k v r'
  end.

(** [Object.keys(r)] *)
Definition keys (r : t) : list TableId := map fst r.

End Rec.

(** ** Events, errors and the three-way rule *)

(** The keys of [ChangeEventListeners]. *)
Inductive EventKind : Type :=
| KTableWrapperWidth
| KLeftGap
| KViewWidth.

(** Ghost record of a published change event with its arguments. *)
Inductive ChangeEvent : Type :=
| TableWrapperWidthChanged (tableId : TableId) (width : number)
| LeftGapChanged (tableId : TableId) (left : number)
| ViewWidthChanged (width : number).

Inductive Thrown : Type :=
| TableWrapperWidthNotFound (tableId : TableId)
| ViewWidthNotInitialized
| LineWidthNotInitialized
| ListenerFailure (msg : string).

Inductive Completion : Type :=
| Normal
| Abrupt (e : Thrown).

(** The errors [calcLeftGap] throws itself, as opposed to those of a listener. *)
Definition missingDependency (e : Thrown) : bool :=
  match e with
  | ListenerFailure _ => false
  | _ => true
  end.

(** The three-way rule of [calcLeftGap] ([let newLeftGap: number; if ...]). *)
Definition newLeftGap (wrapperWidth lineWidth view : number) : number :=
  if ltb wrapperWidth lineWidth then
    0
  else if ltb lineWidth wrapperWidth && ltb wrapperWidth view then
    (wrapperWidth - lineWidth) / px 2
  else
    (view - lineWidth) / px 2.

(** ** The store and its operations *)

Section Store.

(** The host environment and the line width it currently shows. *)
Variable Host : Type.
Variable lineWidthOf : Host -> option number.

Inductive CallbackResult : Type :=
| Returned (h : Host)
| Threw (msg : string) (h : Host).

(** The host a call leaves behind, however it ends. *)
Definition hostAfter (r : CallbackResult) : Host :=
  match r with
  | Returned h => h
  | Threw _ h => h
  end.

(** [(tableId, width) => void] and [(width) => void] *)
Definition EntityListener : Type := TableId -> number -> Host -> CallbackResult.
Definition ViewListener : Type := number -> Host -> CallbackResult.

Record ChangeEventListeners : Type := mkListeners {
  on_tableWrapperWidth : list EntityListener;
  on_leftGap : list EntityListener;
  on_viewWidth : list ViewListener
}.

Record TableMap : Type := mkTableMap {
  viewWidth : option number;
  tableWrapperWidth : Rec.t;
  leftGap : Rec.t;
  changeEventListeners : ChangeEventListeners
}.

(** [new TableMap()] *)
Definition newTableMap : TableMap :=
  {| viewWidth := None;
     tableWrapperWidth := Rec.empty;
     leftGap := Rec.empty;
     changeEventListeners := mkListeners [] [] [] |}.

(** The listener type of each kind, and the arguments it is called with. *)
Definition Callback (event : EventKind) : Type :=
  match event with
  | KTableWrapperWidth => EntityListener
  | KLeftGap => EntityListener
  | KViewWidth => ViewListener
  end.

Definition ListenerArgs (event : EventKind) : Type :=
  match event with
  | KTableWrapperWidth => (TableId * number)%type
  | KLeftGap => (TableId * number)%type
  | KViewWidth => number
  end.

(** [callback(tableId, width)], [callback(tableId, newLeftGap)], [callback(width)] *)
Definition applyCallback (event : EventKind) : Callback event -> ListenerArgs event -> Host -> CallbackResult :=
  match event with
  | KTableWrapperWidth => fun callback args => callback (fst args) (snd args)
  | KLeftGap => fun callback args => callback (fst args) (snd args)
  | KViewWidth => fun callback width => callback width
  end.

Definition eventOf (event : EventKind) : ListenerArgs event -> ChangeEvent :=
  match event with
  | KTableWrapperWidth => fun args => TableWrapperWidthChanged (fst args) (snd args)
  | KLeftGap => fun args => LeftGapChanged (fst args) (snd args)
  | KViewWidth => fun width => ViewWidthChanged width
  end.

(** [this.changeEventListeners[event]] *)
Definition listenersOf (event : EventKind) (s : TableMap) : list (Callback event) :=
  match event with
  | KTableWrapperWidth => on_tableWrapperWidth (changeEventListeners s)
  | KLeftGap => on_leftGap (changeEventListeners s)
  | KViewWidth => on_viewWidth (changeEventListeners s)
  end.

Record Config : Type := mkConfig {
  store : TableMap;
  host : Host;
  emitted : list ChangeEvent
}.

(** A piece of code: it ends normally or by a throw, and leaves a
    configuration behind in both cases. *)
Definition Action : Type := Config -> Completion * Config.

Definition skip : Action := fun c => (Normal, c).

Definition throw (e : Thrown) : Action := fun c => (Abrupt e, c).

Definition andThen (a b : Action) : Action :=
  fun c =>
    match a c with
    | (Normal, c') => b c'
    | (Abrupt e, c') => (Abrupt e, c')
    end.

Local Notation "a ;; b" := (andThen a b) (at level 61, right associativity).

(** [for (const x of xs) body(x)] *)
Fixpoint forOf (A : Type) (xs : list A) (body : A -> Action) : Action :=
  match xs with
  | [] => skip
  | x :: xs' => body x ;; forOf xs' body
  end.

(** A call of a listener already applied to its arguments. *)
Definition call (f : Host -> CallbackResult) : Action :=
  fun c =>
    match f (host c) with
    | Returned h => (Normal, mkConfig (store c) h (emitted c))
    | Threw msg h => (Abrupt (ListenerFailure msg), mkConfig (store c) h (emitted c))
    end.

(** Ghost: the event is on record. *)
Definition publish (ev : ChangeEvent) : Action :=
  fun c => (Normal, mkConfig (store c) (host c) (emitted c ++ [ev])).

(** [for (const callback of this.changeEventListeners[event]) callback(...args)] *)
Definition notify (event : EventKind) (args : ListenerArgs event) : Action :=
  publish (eventOf event args) ;;
  (fun c => forOf (listenersOf event (store c))
                  (fun callback => call (applyCallback event callback args)) c).

Definition modify (f : TableMap -> TableMap) : Action :=
  fun c => (Normal, mkConfig (f (store c)) (host c) (emitted c)).

Definition with_viewWidth (width : number) (s : TableMap) : TableMap :=
  mkTableMap (Some width) (tableWrapperWidth s) (leftGap s) (changeEventListeners s).

Definition with_tableWrapperWidth (tableId : TableId) (width : number) (s : TableMap) : TableMap :=
  mkTableMap (viewWidth s) (Rec.set tableId width (tableWrapperWidth s)) (leftGap s)
             (changeEventListeners s).

Definition with_leftGap (tableId : TableId) (left : number) (s : TableMap) : TableMap :=
  mkTableMap (viewWidth s) (tableWrapperWidth s) (Rec.set tableId left (leftGap s))
             (changeEventListeners s).

Definition with_listeners (ls : ChangeEventListeners) (s : TableMap) : TableMap :=
  mkTableMap (viewWidth s) (tableWrapperWidth s) (leftGap s) ls.

(** [TableMap.calcLeftGap]: the three guards in source order, the rule,
    the write of [this.leftGap[tableId]], the loop over the listeners. *)
Definition calcLeftGap (tableId : TableId) : Action :=
  fun c =>
    match Rec.get tableId (tableWrapperWidth (store c)) with
    | None => throw (TableWrapperWidthNotFound tableId) c
    | Some wrapperWidth =>
        match viewWidth (store c) with
        | None => throw ViewWidthNotInitialized c
        | Some view =>
            match lineWidthOf (host c) with
            | None => throw LineWidthNotInitialized c
            | Some lineWidth =>
                let left := newLeftGap wrapperWidth lineWidth view in
                (modify (with_leftGap tableId left) ;;
                 notify KLeftGap (tableId, left)) c
            end
        end
    end.

(** [TableMap.setTableWrapperWidth] *)
Definition setTableWrapperWidth (tableId : TableId) (width : number) : Action :=
  fun c =>
    let isValueChanged := strictNe (Rec.get tableId (tableWrapperWidth (store c))) width in
    if isValueChanged then
      (modify (with_tableWrapperWidth tableId width) ;;
       notify KTableWrapperWidth (tableId, width) ;;
       calcLeftGap tableId) c
    else
      skip c.

(** [TableMap.setViewWidth]; [Object.keys(this.leftGap)] is taken once,
    when the second loop starts. *)
Definition setViewWidth (width : number) : Action :=
  modify (with_viewWidth width) ;;
  notify KViewWidth width ;;
  (fun c => forOf (Rec.keys (leftGap (store c))) calcLeftGap c).

(** [this.changeEventListeners[event].push(callback)]; the three arrays
    exist from construction on, so the guard that creates a missing array
    is never taken. *)
Definition addChangeEventListener (event : EventKind) : Callback event -> TableMap -> TableMap :=
  match event with
  | KTableWrapperWidth => fun callback s =>
      let ls := changeEventListeners s in
      with_listeners
        (mkListeners (on_tableWrapperWidth ls ++ [callback]) (on_leftGap ls) (on_viewWidth ls)) s
  | KLeftGap => fun callback s =>
      let ls := changeEventListeners s in
      with_listeners
        (mkListeners (on_tableWrapperWidth ls) (on_leftGap ls ++ [callback]) (on_viewWidth ls)) s
  | KViewWidth => fun callback s =>
      let ls := changeEventListeners s in
      with_listeners
        (mkListeners (on_tableWrapperWidth ls) (on_leftGap ls) (on_viewWidth ls ++ [callback])) s
  end.

(** ** Sessions: what the plugin does with its store *)

Inductive Op : Type :=
| OpSetTableWrapperWidth (tableId : TableId) (width : number)
| OpSetViewWidth (width : number)
| OpAddChangeEventListener (event : EventKind) (callback : Callback event)
| OpHostChange (h : Host).

(** One step of a session.  An error thrown by the store reaches the
    observer callback that made the call; the store object lives on in
    the state the throw left it in.  Between two calls the host may
    change in any way. *)
Definition exec (op : Op) (c : Config) : Config :=
  match op with
  | OpSetTableWrapperWidth tableId width => snd (setTableWrapperWidth tableId width c)
  | OpSetViewWidth width => snd (setViewWidth width c)
  | OpAddChangeEventListener event callback =>
      mkConfig (addChangeEventListener event callback (store c)) (host c) (emitted c)
  | OpHostChange h => mkConfig (store c) h (emitted c)
  end.

Definition run (ops : list Op) (c : Config) : Config := fold_left (fun c op => exec op c) ops c.

Definition initial (h : Host) : Config := mkConfig newTableMap h [].

(** ** Vocabulary of the properties *)

(** A callback that returns from every host. *)
Definition returns (f : Host -> CallbackResult) : Prop :=
  forall h, exists h', f h = Returned h'.

(** No listener of the kind throws, whatever it is called with. *)
Definition calm (event : EventKind) (s : TableMap) : Prop :=
  forall callback args, In callback (listenersOf event s) ->
                        returns (applyCallback event callback args).

(** The host after the callbacks [g x], [x] in [xs], ran one after the other. *)
Definition hostAfterAll (A : Type) (g : A -> Host -> CallbackResult) (xs : list A) (h : Host) : Host :=
  fold_left (fun h x => hostAfter (g x h)) xs h.

(** [a] keeps the property [P] of the store, also when it throws. *)
Definition preserves (P : TableMap -> Prop) (a : Action) : Prop :=
  forall c, P (store c) -> P (store (snd (a c))).

(** What a property of the store has to withstand to survive a setter. *)
Definition stableUnderLeftGap (P : TableMap -> Prop) (tableId : TableId) : Prop :=
  forall s w V L h,
    P s -> Rec.get tableId (tableWrapperWidth s) = Some w -> viewWidth s = Some V ->
    lineWidthOf h = Some L ->
    P (with_leftGap tableId (newLeftGap w L V) s).

(** The configuration in which [setTableWrapperWidth] starts to notify,
    once it has found the width changed and stored it. *)
Definition widthStored (tableId : TableId) (width : number) (c : Config) : Config :=
  mkConfig (with_tableWrapperWidth tableId width (store c)) (host c) (emitted c).

(** [a] only adds to the events published. *)
Definition grows (a : Action) : Prop :=
  forall c, exists rest, emitted (snd (a c)) = emitted c ++ rest.

(** Registration of several listeners of one kind, one call after the other. *)
Definition addChangeEventListeners (event : EventKind) (callbacks : list (Callback event))
           (s : TableMap) : TableMap :=
  fold_left (fun s callback => addChangeEventListener event callback s) callbacks s.

(** The [leftGap] event of an entry of the [leftGap] record. *)
Definition leftGapEvent (entry : TableId * number) : ChangeEvent :=
  LeftGapChanged (fst entry) (snd entry).

(** The [leftGap] record has each key once, and only keys that have a
    wrapper width. *)
Definition wellFormed (s : TableMap) : Prop :=
  NoDup (Rec.keys (leftGap s)) /\
  forall tableId, In tableId (Rec.keys (leftGap s)) ->
                  Rec.get tableId (tableWrapperWidth s) <> None.




End Store.

Arguments newTableMap : clear implicits.
Arguments OpSetTableWrapperWidth {Host} tableId width.
Arguments OpSetViewWidth {Host} width.

(** ** Vocabulary of the further properties *)

(** The value the last event picked by [pick] carries, if there is one. *)
Definition lastOf (pick : ChangeEvent -> option number) (evs : list ChangeEvent) : option number :=
  fold_left (fun acc ev => match pick ev with Some v => Some v | None => acc end) evs None.

Definition pickViewWidth (ev : ChangeEvent) : option number :=
  match ev with
  | ViewWidthChanged width => Some width
  | _ => None
  end.

Definition pickTableWrapperWidth (tableId : TableId) (ev : ChangeEvent) : option number :=
  match ev with
  | TableWrapperWidthChanged tableId' width => if String.eqb tableId tableId' then Some width else None
  | _ => None
  end.

Definition pickLeftGap (tableId : TableId) (ev : ChangeEvent) : option number :=
  match ev with
  | LeftGapChanged tableId' gap => if String.eqb tableId tableId' then Some gap else None
  | _ => None
  end.

(** The table a [leftGap] event is about. *)
Definition leftGapEventTable (ev : ChangeEvent) : option TableId :=
  match ev with
  | LeftGapChanged tableId _ => Some tableId
  | _ => None
  end.

(** The errors a setter can end with in a session. *)
Definition lineOrListener (e : Thrown) : Prop :=
  e = LineWidthNotInitialized \/ exists msg, e = ListenerFailure msg.

Section FurtherVocabulary.

Variable Host : Type.
Variable lineWidthOf : Host -> option number.

(** What the store holds is what the last event of each kind said. *)
Definition agreesWithEvents (s : TableMap Host) (evs : list ChangeEvent) : Prop :=
  viewWidth s = lastOf pickViewWidth evs /\
  forall tableId,
    Rec.get tableId (tableWrapperWidth s) = lastOf (pickTableWrapperWidth tableId) evs /\
    Rec.get tableId (leftGap s) = lastOf (pickLeftGap tableId) evs.

(** [a] keeps a property of the store and the events together, also when
    it throws. *)
Definition keeps (I : TableMap Host -> list ChangeEvent -> Prop) (a : Action Host) : Prop :=
  forall c, I (store c) (emitted c) -> I (store (snd (a c))) (emitted (snd (a c))).

(** No listener of any kind throws. *)
Definition allCalm (s : TableMap Host) : Prop := forall event, calm event s.

(** A session step that registers a listener registers one that returns. *)
Definition registersCalm (op : Op Host) : Prop :=
  match op with
  | OpAddChangeEventListener _ event callback =>
      forall args, returns (applyCallback event callback args)
  | _ => True
  end.

(** Every left gap stored is the three-way rule of the wrapper width and
    the view width stored, at the line width [L]. *)
Definition leftGapsUpToDate (L : number) (s : TableMap Host) : Prop :=
  forall tableId left,
    Rec.get tableId (leftGap s) = Some left ->
    exists w V,
      Rec.get tableId (tableWrapperWidth s) = Some w /\
      viewWidth s = Some V /\
      left = newLeftGap w L V.

End FurtherVocabulary.

(** ** The plugin around the store

    The class [FullwidthTablePlugin] of [src/main.ts]: the three listeners
    its constructor registers, and the two methods through which its
    observers feed the store.  The DOM is abstract: what the code asks of
    it ([querySelector], [dataset], [clientWidth], [getComputedStyle] with
    [parseFloat], [style.setProperty], [console]) are parameters, and so is
    the conversion of a number to a string in the template literals.
    [clientWidth] is a whole number of pixels, zero or more. *)

Module FullwidthTablePlugin.

Local Abbreviation tableMap_setTableWrapperWidth := setTableWrapperWidth.
Local Abbreviation tableMap_setViewWidth := setViewWidth.

(** The errors of the plugin's own guards, and those of its store. *)
Inductive PluginThrown : Type :=
| TableIdNotFound
| TableWrapperElementNotFound
| ScrollerNotFound
| FromTableMap (e : Thrown).

Inductive PluginCompletion : Type :=
| Done
| Failed (e : PluginThrown).

(** What the plugin asks of the DOM. *)
Record DomApi (Dom Element : Type) : Type := mkDomApi {
  (** [document.querySelector('.cm-contentContainer')?.clientWidth] *)
  lineWidthOf : Dom -> option number;
  (** [document.querySelector(`div.cm-table-widget[data-plugin-fullwidth-table-id="${tableId}"]`)] *)
  queryTableWidget : TableId -> Dom -> option Element;
  (** [element instanceof HTMLElement] *)
  isHTMLElement : Element -> bool;
  (** [element.style.setProperty(name, value)] *)
  setStyleProperty : Element -> string -> string -> Dom -> Dom;
  (** [document.body.style.setProperty(name, value)] *)
  setBodyStyleProperty : string -> string -> Dom -> Dom;
  (** [console.log(message)], [console.debug(message)], [console.log(element)] *)
  consoleLog : string -> Dom -> Dom;
  consoleDebug : string -> Dom -> Dom;
  consoleLogElement : Element -> Dom -> Dom;
  (** [`${n}`] *)
  numberToString : number -> string;
  (** [element.dataset.pluginFullwidthTableId] *)
  datasetTableId : Element -> Dom -> option string;
  (** [element.querySelector('div.table-wrapper')] *)
  queryTableWrapper : Element -> Dom -> option Element;
  (** [element.querySelector('div.cm-scroller')] *)
  queryScroller : Element -> Dom -> option Element;
  (** [element.clientWidth] *)
  clientWidth : Element -> Dom -> N;
  (** [parseFloat(window.getComputedStyle(element).paddingLeft)], [...paddingRight] *)
  paddingLeft : Element -> Dom -> number;
  paddingRight : Element -> Dom -> number
}.

Section WithDom.

Variable Dom : Type.
Variable Element : Type.
Variable api : DomApi Dom Element.

(** The listener of [tableWrapperWidth] registered by the constructor. *)
Definition onTableWrapperWidth : EntityListener Dom :=
  fun tableId width dom =>
    Returned (consoleLog api ("tableWrapperWidth of " ++ tableId ++ " updated: "
                              ++ numberToString api width)%string dom).

(** The listener of [leftGap] registered by the constructor. *)
Definition onLeftGap : EntityListener Dom :=
  fun tableId left dom =>
    let dom1 := consoleLog api ("leftGap of " ++ tableId ++ " updated: "
                                ++ numberToString api left)%string dom in
    match queryTableWidget api tableId dom1 with
    | None => Returned dom1
    | Some tableWidgetElement =>
        if isHTMLElement api tableWidgetElement then
          Returned (setStyleProperty api tableWidgetElement "--plugin-fullwidth-table-left-gap"
                                     (numberToString api left ++ "px")%string dom1)
        else
          Threw ("tableWidgetElement is not an HTMLElement: " ++ tableId)%string dom1
    end.

(** The listener of [viewWidth] registered by the constructor. *)
Definition onViewWidth : ViewListener Dom :=
  fun width dom =>
    Returned (setBodyStyleProperty api "--plugin-fullwidth-table-view-width"
                                   (numberToString api width ++ "px")%string dom).

(** [private tableMap = new TableMap()] after the constructor has run. *)
Definition tableMap : TableMap Dom :=
  addChangeEventListener KViewWidth onViewWidth
    (addChangeEventListener KLeftGap onLeftGap
       (addChangeEventListener KTableWrapperWidth onTableWrapperWidth (newTableMap Dom))).

Definition PluginAction : Type := Config Dom -> PluginCompletion * Config Dom.

(** A call into the store from a method of the plugin. *)
Definition fromTableMap (r : Completion * Config Dom) : PluginCompletion * Config Dom :=
  match r with
  | (Normal, c) => (Done, c)
  | (Abrupt e, c) => (Failed (FromTableMap e), c)
  end.

(** [FullwidthTablePlugin.setTableWrapperWidth]; [!tableId] holds of a
    missing id and of the empty string. *)
Definition setTableWrapperWidth (tableWidgetElement : Element) : PluginAction :=
  fun c =>
    match datasetTableId api tableWidgetElement (host c) with
    | None => (Failed TableIdNotFound, c)
    | Some tableId =>
        if String.eqb tableId "" then
          (Failed TableIdNotFound, c)
        else
          match queryTableWrapper api tableWidgetElement (host c) with
          | None => (Failed TableWrapperElementNotFound, c)
          | Some tableWrapperElement =>
              if isHTMLElement api tableWrapperElement then
                let width := px (Z.of_N (clientWidth api tableWrapperElement (host c))) in
                fromTableMap (tableMap_setTableWrapperWidth (lineWidthOf api) tableId width c)
              else
                (Failed TableWrapperElementNotFound, c)
          end
    end.

(** [FullwidthTablePlugin.storeViewSize] *)
Definition storeViewSize (viewElement : Element) : PluginAction :=
  fun c =>
    let viewClientWidth := px (Z.of_N (clientWidth api viewElement (host c))) in
    match queryScroller api viewElement (host c) with
    | None => (Failed ScrollerNotFound, c)
    | Some scroller =>
        if isHTMLElement api scroller then
          let dom1 := consoleLogElement api scroller (host c) in
          let padding := paddingLeft api scroller dom1 + paddingRight api scroller dom1 in
          let contentWidth := viewClientWidth - padding in
          match tableMap_setViewWidth (lineWidthOf api) contentWidth
                                      (mkConfig (store c) dom1 (emitted c)) with
          | (Normal, c') =>
              (Done,
               mkConfig (store c')
                        (consoleDebug api
                           ("Detected view width: " ++ numberToString api contentWidth)%string
                           (host c'))
                        (emitted c'))
          | (Abrupt e, c') => (Failed (FromTableMap e), c')
          end
        else
          (Failed ScrollerNotFound, c)
    end.

(** What the observers of the plugin do, one call at a time; between two
    calls the DOM may change in any way. *)
Inductive PluginOp : Type :=
| CallSetTableWrapperWidth (tableWidgetElement : Element)
| CallStoreViewSize (viewElement : Element)
| DomChange (dom : Dom).

Definition pluginExec (op : PluginOp) (c : Config Dom) : Config Dom :=
  match op with
  | CallSetTableWrapperWidth tableWidgetElement => snd (setTableWrapperWidth tableWidgetElement c)
  | CallStoreViewSize viewElement => snd (storeViewSize viewElement c)
  | DomChange dom => mkConfig (store c) dom (emitted c)
  end.

Definition pluginRun (ops : list PluginOp) (c : Config Dom) : Config Dom :=
  fold_left (fun c op => pluginExec op c) ops c.

(** The plugin once constructed, in the DOM [dom]. *)
Definition constructed (dom : Dom) : Config Dom := mkConfig tableMap dom [].

(** Every wrapper width stored is a whole number of pixels, zero or more. *)
Definition wholePixels (s : TableMap Dom) : Prop :=
  forall tableId w, Rec.get tableId (tableWrapperWidth s) = Some w ->
                    exists n : N, w = px (Z.of_N n).

(** Every table widget the DOM finds is an HTML element. *)
Definition widgetsAreHTMLElements : Prop :=
  forall tableId dom tableWidgetElement,
    queryTableWidget api tableId dom = Some tableWidgetElement ->
    isHTMLElement api tableWidgetElement = true.

End WithDom.

Arguments CallSetTableWrapperWidth {Dom Element} tableWidgetElement.
Arguments CallStoreViewSize {Dom Element} viewElement.
Arguments DomChange {Dom Element} dom.

End FullwidthTablePlugin.

(** ** Hosts used in the examples *)

Module Fixture.

(** A host whose line is 400 pixels wide, whatever happens. *)
Definition fixedLine (_ : unit) : option number := Some (px 400).

(** A host that is a journal of the calls its listeners received; its line
    is 400 pixels wide as well. *)
Definition Journal : Type := list (string * TableId * number).

Definition journalLine (_ : Journal) : option number := Some (px 400).

(** A listener that notes its name and its arguments in the journal. *)
Definition recorder (name : string) : EntityListener Journal :=
  fun tableId value journal => Returned (journal ++ [(name, tableId, value)]).

(** A listener that throws at once. *)
Definition thrower (msg : string) : EntityListener Journal :=
  fun _ _ journal => Threw msg journal.

(** A store with one table, 700 wide, in a view 1000 wide, no listener. *)
Definition oneTable : Config unit :=
  mkConfig (mkTableMap (Some (px 1000)) [("t1", px 700)] [] (mkListeners [] [] [])) tt [].

(** The same with the table exactly as wide as the line. *)
Definition tableAtLineWidth : Config unit :=
  mkConfig (mkTableMap (Some (px 1000)) [("t1", px 400)] [] (mkListeners [] [] [])) tt [].

(** The same with a left gap already stored that is the one the rule gives. *)
Definition gapUpToDate : Config unit :=
  mkConfig (mkTableMap (Some (px 1000)) [("t1", px 700)]
                       [("t1", newLeftGap (px 700) (px 400) (px 1000))]
                       (mkListeners [] [] [])) tt [].

(** A table reported before any view width: the report throws. *)
Definition reportedTooEarly : Config unit :=
  run fixedLine [OpSetTableWrapperWidth "t1" (px 300)] (initial tt).


(** The scenario of the specification up to the last resize of the view. *)
Definition scenario : list (Op unit) :=
  [OpSetViewWidth (px 1000);
   OpSetTableWrapperWidth "t1" (px 300);
   OpSetTableWrapperWidth "t1" (px 700);
   OpSetTableWrapperWidth "t1" (px 1400)].

End Fixture.

(** ** A DOM used in the examples of the plugin *)

Module PluginFixture.

(** The DOM is the list of what was written to it (console lines and style
    properties); elements are numbers: 0 is the view, 1 its scroller, 2 a
    table widget, 3 its wrapper. *)
Definition Dom : Type := list string.

Definition api : FullwidthTablePlugin.DomApi Dom nat :=
  {| FullwidthTablePlugin.lineWidthOf := fun _ => Some (px 400);
     FullwidthTablePlugin.queryTableWidget := fun _ _ => Some 2%nat;
     FullwidthTablePlugin.isHTMLElement := fun _ => true;
     FullwidthTablePlugin.setStyleProperty :=
       fun _ name value dom => dom ++ [(name ++ "=" ++ value)%string];
     FullwidthTablePlugin.setBodyStyleProperty :=
       fun name value dom => dom ++ [(name ++ "=" ++ value)%string];
     FullwidthTablePlugin.consoleLog := fun message dom => dom ++ [message];
     FullwidthTablePlugin.consoleDebug := fun message dom => dom ++ [message];
     FullwidthTablePlugin.consoleLogElement := fun _ dom => dom;
     FullwidthTablePlugin.numberToString := fun _ => "n";
     FullwidthTablePlugin.datasetTableId := fun _ _ => Some "t1";
     FullwidthTablePlugin.queryTableWrapper := fun _ _ => Some 3%nat;
     FullwidthTablePlugin.queryScroller := fun _ _ => Some 1%nat;
     FullwidthTablePlugin.clientWidth :=
       fun element _ => match element with 0%nat => 1032%N | _ => 700%N end;
     FullwidthTablePlugin.paddingLeft := fun _ _ => px 16;
     FullwidthTablePlugin.paddingRight := fun _ _ => px 16 |}.

(** The plugin loads: the view is measured. *)
Definition loaded : list (FullwidthTablePlugin.PluginOp Dom nat) :=
  [FullwidthTablePlugin.CallStoreViewSize 0%nat].

End PluginFixture.

(** A host that shows the line width it holds, if it holds one. *)
Definition optionalLine (h : option number) : option number := h.

(** A table tracked in a view, then the line disappears from the host. *)
Definition lineGone : list (Op (option number)) :=
  [OpSetViewWidth (px 1000); OpSetTableWrapperWidth "t1" (px 700); OpHostChange None].

(** Goals on [Qc] comparisons of sums and halves, brought down to [Q]. *)
Ltac to_Q :=
  unfold Qcle, Qclt in *;
  unfold Qcdiv, Qcminus, Qcmult, Qcplus, Qcinv, Qcopp, px, Q2Qc in *;
  cbn [this] in *;
  repeat rewrite Qred_correct;
  change (/ inject_Z 2)%Q with (1 # 2)%Q.

(** ** Facts about numbers *)

Lemma ltb_lt (x y : number) : ltb x y = true <-> x < y.
Proof.
  unfold ltb, Qclt, Qccompare. rewrite Qlt_alt.
  destruct (this x ?= this y)%Q; split; intro H; congruence.
Qed.

Lemma ltb_ge (x y : number) : ltb x y = false <-> y <= x.
Proof.
  split; intro H.
  - destruct (Qclt_le_dec x y) as [Hlt | Hle]; [| exact Hle].
    apply ltb_lt in Hlt. congruence.
  - destruct (ltb x y) eqn:E; [| reflexivity].
    apply ltb_lt in E. exfalso. exact (Qcle_not_lt _ _ H E).
Qed.

Lemma ltb_irrefl (x : number) : ltb x x = false.
Proof. apply ltb_ge. apply Qcle_refl. Qed.

Lemma eqb_eq (x y : number) : eqb x y = true <-> x = y.
Proof.
  unfold eqb. rewrite Qeq_bool_iff. split.
  - apply Qc_is_canon.
  - intros ->. reflexivity.
Qed.

Lemma strictNe_false (v : option number) (width : number) :
  strictNe v width = false <-> v = Some width.
Proof.
  destruct v as [old |]; simpl.
  - rewrite negb_false_iff, eqb_eq. split; congruence.
  - split; discriminate.
Qed.

Lemma strictNe_true (v : option number) (width : number) :
  strictNe v width = true <-> v <> Some width.
Proof.
  rewrite <- strictNe_false. destruct (strictNe v width); split; congruence.
Qed.

(** Half of a difference has the sign of the difference. *)
Lemma half_diff_nonneg (x y : number) : y <= x -> 0 <= (x - y) / px 2.
Proof. intro H. to_Q. lra. Qed.

Lemma half_diff_pos (x y : number) : y < x -> 0 < (x - y) / px 2.
Proof. intro H. to_Q. lra. Qed.

Lemma half_diff_neg (x y : number) : x < y -> (x - y) / px 2 < 0.
Proof. intro H. to_Q. lra. Qed.

(** The three branches of the rule. *)
Lemma newLeftGap_narrow (w L V : number) : w < L -> newLeftGap w L V = 0.
Proof. intro H. unfold newLeftGap. apply ltb_lt in H. rewrite H. reflexivity. Qed.

Lemma newLeftGap_between (w L V : number) :
  L < w -> w < V -> newLeftGap w L V = (w - L) / px 2.
Proof.
  intros HL HV. unfold newLeftGap.
  assert (N : ltb w L = false) by (apply ltb_ge, Qclt_le_weak, HL).
  apply ltb_lt in HL, HV. rewrite N, HL, HV. reflexivity.
Qed.

Lemma newLeftGap_otherwise (w L V : number) :
  ~ w < L -> ~ (L < w /\ w < V) -> newLeftGap w L V = (V - L) / px 2.
Proof.
  intros H1 H2. unfold newLeftGap.
  destruct (ltb w L) eqn:E1.
  - apply ltb_lt in E1. contradiction.
  - destruct (ltb L w) eqn:E2; destruct (ltb w V) eqn:E3; simpl; try reflexivity.
    apply ltb_lt in E2, E3. exfalso. apply H2. split; assumption.
Qed.

(** ** Facts about records *)

Module RecFacts.

Lemma get_set_same (k : TableId) (v : number) (r : Rec.t) :
  Rec.get k (Rec.set k v r) = Some v.
Proof.
  induction r as [| [k' v'] r IH]; simpl.
  - rewrite String.eqb_refl. reflexivity.
  - destruct (String.eqb k k') eqn:E; simpl; rewrite E; [reflexivity | exact IH].
Qed.

Lemma get_set_other (k k' : TableId) (v : number) (r : Rec.t) :
  k <> k' -> Rec.get k' (Rec.set k v r) = Rec.get k' r.
Proof.
  intro N. induction r as [| [k0 v0] r IH]; simpl.
  - apply String.eqb_neq in N. rewrite String.eqb_sym in N. rewrite N. reflexivity.
  - destruct (String.eqb k k0) eqn:E; simpl.
    + apply String.eqb_eq in E. subst k0.
      assert (N' : String.eqb k' k = false) by (apply String.eqb_neq; congruence).
      rewrite N'. reflexivity.
    + destruct (String.eqb k' k0); [reflexivity | exact IH].
Qed.

Lemma get_In (k : TableId) (r : Rec.t) :
  In k (Rec.keys r) <-> Rec.get k r <> None.
Proof.
  induction r as [| [k' v'] r IH]; simpl.
  - split; [intros [] | congruence].
  - destruct (String.eqb k k') eqn:E.
    + apply String.eqb_eq in E. subst. split; [discriminate | auto].
    + apply String.eqb_neq in E. rewrite <- IH. split.
      * intros [H | H]; [congruence | exact H].
      * auto.
Qed.

(** Writing a key that is there moves no key. *)
Lemma keys_set_present (k : TableId) (v : number) (r : Rec.t) :
  In k (Rec.keys r) -> Rec.keys (Rec.set k v r) = Rec.keys r.
Proof.
  induction r as [| [k' v'] r IH]; simpl.
  - intros [].
  - intro H. destruct (String.eqb k k') eqn:E; simpl; [reflexivity |].
    apply String.eqb_neq in E. f_equal. apply IH.
    destruct H as [H | H]; [congruence | exact H].
Qed.

Lemma keys_set_absent (k : TableId) (v : number) (r : Rec.t) :
  ~ In k (Rec.keys r) -> Rec.keys (Rec.set k v r) = Rec.keys r ++ [k].
Proof.
  induction r as [| [k' v'] r IH]; simpl.
  - reflexivity.
  - intro H. destruct (String.eqb k k') eqn:E; simpl.
    + apply String.eqb_eq in E. subst. exfalso. auto.
    + f_equal. apply IH. auto.
Qed.

(** The value a lookup returns is one of the values held. *)
Lemma get_Some_In (k : TableId) (v : number) (r : Rec.t) :
  Rec.get k r = Some v -> In (k, v) r.
Proof.
  induction r as [| [k' v'] r IH]; simpl; [discriminate |].
  destruct (String.eqb k k') eqn:E.
  - apply String.eqb_eq in E. intros [= ->]. subst. auto.
  - auto.
Qed.

(** After a write, a lookup returns the value written or an old one. *)
Lemma get_set_cases (k k' : TableId) (v v' : number) (r : Rec.t) :
  Rec.get k' (Rec.set k v r) = Some v' ->
  (k' = k /\ v' = v) \/ (k' <> k /\ Rec.get k' r = Some v').
Proof.
  destruct (string_dec k k') as [-> | N].
  - rewrite get_set_same. intros [= <-]. auto.
  - rewrite (get_set_other _ _ N). intro H. right. split; congruence.
Qed.


End RecFacts.

(** ** How the building blocks act on a configuration *)

Section Actions.

Variable Host : Type.
Variable lineWidthOf : Host -> option number.

Local Abbreviation Config := (Config Host).
Local Abbreviation Action := (Action Host).
Local Abbreviation TableMap := (TableMap Host).

Lemma preserves_skip P : preserves P (@skip Host).
Proof. intros c H. exact H. Qed.

Lemma preserves_throw P e : preserves P (@throw Host e).
Proof. intros c H. exact H. Qed.

Lemma preserves_publish P ev : preserves P (@publish Host ev).
Proof. intros c H. exact H. Qed.

Lemma preserves_call P f : preserves P (@call Host f).
Proof. intros c H. unfold call. destruct (f (host c)); exact H. Qed.

Lemma preserves_modify (P : TableMap -> Prop) f :
  (forall s, P s -> P (f s)) -> preserves P (modify f).
Proof. intros Hf c H. simpl. auto. Qed.

Lemma preserves_andThen P (a b : Action) :
  preserves P a -> preserves P b -> preserves P (andThen a b).
Proof.
  intros Ha Hb c H. unfold andThen.
  specialize (Ha c H). destruct (a c) as [[| e] c1]; simpl in *.
  - apply Hb. exact Ha.
  - exact Ha.
Qed.

Lemma preserves_forOf P (A : Type) (body : A -> Action) (xs : list A) :
  (forall x, preserves P (body x)) -> preserves P (forOf xs body).
Proof.
  intro Hb. induction xs as [| x xs IH]; simpl.
  - apply preserves_skip.
  - apply preserves_andThen; [apply Hb | exact IH].
Qed.

(** An action chosen by looking at the configuration it starts from. *)
Lemma preserves_dyn P (F : Config -> Action) :
  (forall c0, preserves P (F c0)) -> preserves P (fun c => F c c).
Proof. intros HF c H. exact (HF c c H). Qed.

Lemma preserves_notify P event args : preserves P (@notify Host event args).
Proof.
  unfold notify. apply preserves_andThen; [apply preserves_publish |].
  apply (preserves_dyn (fun c0 => forOf (listenersOf event (store c0)) _)).
  intro c0. apply preserves_forOf. intro x. apply preserves_call.
Qed.

(** *** The listener loop *)

Lemma forOf_call_frame (A : Type) (g : A -> Host -> CallbackResult Host) xs c :
  store (snd (forOf xs (fun x => call (g x)) c)) = store c /\
  emitted (snd (forOf xs (fun x => call (g x)) c)) = emitted c.
Proof.
  revert c. induction xs as [| x xs IH]; intro c; simpl; [auto |].
  unfold andThen, call. destruct (g x (host c)); simpl; [| auto].
  destruct (IH (mkConfig (store c) h (emitted c))) as [E1 E2]. auto.
Qed.

Lemma forOf_call_returns (A : Type) (g : A -> Host -> CallbackResult Host) xs c :
  (forall x, In x xs -> returns (g x)) ->
  forOf xs (fun x => call (g x)) c
  = (Normal, mkConfig (store c) (hostAfterAll g xs (host c)) (emitted c)).
Proof.
  revert c. induction xs as [| x xs IH]; intros c H; simpl.
  - destruct c; reflexivity.
  - unfold andThen, call.
    destruct (H x (or_introl eq_refl) (host c)) as [h' E]. rewrite E.
    rewrite IH by (intros y Hy; apply H; right; exact Hy).
    reflexivity.
Qed.

Lemma notify_frame event args (c : Config) :
  store (snd (notify event args c)) = store c /\
  emitted (snd (notify event args c)) = emitted c ++ [eventOf event args].
Proof.
  unfold notify, andThen, publish. simpl.
  match goal with |- context [forOf ?xs ?b ?c'] =>
    destruct (forOf_call_frame (fun cb => applyCallback event cb args) xs c') as [E1 E2]
  end.
  simpl in *. auto.
Qed.

Lemma notify_returns event args (c : Config) :
  (forall callback, In callback (listenersOf event (store c)) ->
                    returns (applyCallback event callback args)) ->
  notify event args c
  = (Normal,
     mkConfig (store c)
              (hostAfterAll (fun callback => applyCallback event callback args)
                            (listenersOf event (store c)) (host c))
              (emitted c ++ [eventOf event args])).
Proof.
  intro H. unfold notify, andThen, publish. simpl.
  rewrite (forOf_call_returns (fun cb => applyCallback event cb args)) by exact H.
  reflexivity.
Qed.

(** A notification ends normally or with the failure of a listener. *)
Lemma notify_completion event args (c : Config) e :
  fst (notify event args c) = Abrupt e -> exists msg, e = ListenerFailure msg.
Proof.
  unfold notify, andThen, publish. simpl.
  generalize (mkConfig (store c) (host c) (emitted c ++ [eventOf event args])).
  generalize (listenersOf event (store c)).
  intro xs. induction xs as [| x xs IH]; intro c1; simpl; [discriminate |].
  unfold andThen, call. destruct (applyCallback event x args (host c1)); simpl.
  - apply IH.
  - intros [= <-]. eauto.
Qed.

End Actions.

(** ** The recomputation of one left gap *)

Section CalcLeftGap.

Variable Host : Type.
Variable lineWidthOf : Host -> option number.

Local Abbreviation Config := (Config Host).

(** With its three inputs at hand, [calcLeftGap] is the write of the new
    gap followed by the notification. *)
Lemma calcLeftGap_defined tableId (c : Config) (w V L : number) :
  Rec.get tableId (tableWrapperWidth (store c)) = Some w ->
  viewWidth (store c) = Some V ->
  lineWidthOf (host c) = Some L ->
  calcLeftGap lineWidthOf tableId c
  = notify KLeftGap (tableId, newLeftGap w L V)
           (mkConfig (with_leftGap tableId (newLeftGap w L V) (store c)) (host c) (emitted c)).
Proof.
  intros Hw HV HL. unfold calcLeftGap. rewrite Hw, HV, HL. reflexivity.
Qed.

Lemma calcLeftGap_store tableId (c : Config) (w V L : number) :
  Rec.get tableId (tableWrapperWidth (store c)) = Some w ->
  viewWidth (store c) = Some V ->
  lineWidthOf (host c) = Some L ->
  store (snd (calcLeftGap lineWidthOf tableId c))
  = with_leftGap tableId (newLeftGap w L V) (store c) /\
  emitted (snd (calcLeftGap lineWidthOf tableId c))
  = emitted c ++ [LeftGapChanged tableId (newLeftGap w L V)].
Proof.
  intros Hw HV HL. rewrite (calcLeftGap_defined _ _ Hw HV HL).
  match goal with |- context [notify ?e ?a ?c1] => destruct (notify_frame e a c1) as [E1 E2] end.
  rewrite E1, E2. auto.
Qed.

(** Whatever [calcLeftGap] does to the store is a write of one left gap. *)
Lemma calcLeftGap_cases tableId (c : Config) :
  (exists e, calcLeftGap lineWidthOf tableId c = (Abrupt e, c) /\ missingDependency e = true) \/
  (exists w V L,
      Rec.get tableId (tableWrapperWidth (store c)) = Some w /\
      viewWidth (store c) = Some V /\
      lineWidthOf (host c) = Some L /\
      store (snd (calcLeftGap lineWidthOf tableId c))
      = with_leftGap tableId (newLeftGap w L V) (store c) /\
      emitted (snd (calcLeftGap lineWidthOf tableId c))
      = emitted c ++ [LeftGapChanged tableId (newLeftGap w L V)]).
Proof.
  destruct (Rec.get tableId (tableWrapperWidth (store c))) as [w |] eqn:Hw.
  - destruct (viewWidth (store c)) as [V |] eqn:HV.
    + destruct (lineWidthOf (host c)) as [L |] eqn:HL.
      * right. exists w, V, L. destruct (calcLeftGap_store _ _ Hw HV HL). auto.
      * left. unfold calcLeftGap. rewrite Hw, HV, HL. eexists. split; reflexivity.
    + left. unfold calcLeftGap. rewrite Hw, HV. eexists. split; reflexivity.
  - left. unfold calcLeftGap. rewrite Hw. eexists. split; reflexivity.
Qed.

Lemma preserves_calcLeftGap (P : TableMap Host -> Prop) tableId :
  (forall s w V L h,
      P s -> Rec.get tableId (tableWrapperWidth s) = Some w -> viewWidth s = Some V ->
      lineWidthOf h = Some L ->
      P (with_leftGap tableId (newLeftGap w L V) s)) ->
  preserves P (calcLeftGap lineWidthOf tableId).
Proof.
  intros HP c H.
  destruct (calcLeftGap_cases tableId c) as [[e [E _]] | [w [V [L [Hw [HV [HL [E _]]]]]]]].
  - rewrite E. exact H.
  - rewrite E. exact (HP _ _ _ _ _ H Hw HV HL).
Qed.

(** C1.  Three-way rule: with the wrapper width [w] of the table, the view
    width [V] and the line width [L] at hand, [calcLeftGap] stores and
    publishes [0] when [w < L], [(w - L) / 2] when [L < w < V], and
    [(V - L) / 2] otherwise, that is when neither test holds; in particular
    when [w >= V] (and [w] is not below [L], the first test coming first). *)
Theorem calcLeftGap_piecewise tableId (c : Config) (w V L : number) :
  Rec.get tableId (tableWrapperWidth (store c)) = Some w ->
  viewWidth (store c) = Some V ->
  lineWidthOf (host c) = Some L ->
  let c' := snd (calcLeftGap lineWidthOf tableId c) in
  let storesAndPublishes left :=
    Rec.get tableId (leftGap (store c')) = Some left /\
    emitted c' = emitted c ++ [LeftGapChanged tableId left] in
  (w < L -> storesAndPublishes 0) /\
  (L < w -> w < V -> storesAndPublishes ((w - L) / px 2)) /\
  (~ w < L -> ~ (L < w /\ w < V) -> storesAndPublishes ((V - L) / px 2)) /\
  (L <= w -> V <= w -> storesAndPublishes ((V - L) / px 2)).
Proof.
  intros Hw HV HL c' storesAndPublishes.
  assert (SP : storesAndPublishes (newLeftGap w L V)).
  { destruct (calcLeftGap_store _ _ Hw HV HL) as [E1 E2]. subst c' storesAndPublishes.
    cbv beta. rewrite E1, E2. simpl. rewrite RecFacts.get_set_same. auto. }
  split; [| split; [| split]].
  - intro H. rewrite <- (newLeftGap_narrow V H). exact SP.
  - intros H1 H2. rewrite <- (newLeftGap_between H1 H2). exact SP.
  - intros H1 H2. rewrite <- (newLeftGap_otherwise H1 H2). exact SP.
  - intros H1 H2. rewrite <- (@newLeftGap_otherwise w L V); [exact SP | |].
    + intro N. exact (Qcle_not_lt _ _ H1 N).
    + intros [_ N]. exact (Qcle_not_lt _ _ H2 N).
Qed.

(** C9.  On the boundary where the wrapper width of the table equals the
    line width [L], with [L] below the view width [V], neither the test
    [w < L] nor the test [L < w] holds, and [calcLeftGap] stores and
    publishes the clamped value [(V - L) / 2], which is positive: it is not
    the [0] both other branches would have given there. *)
Theorem calcLeftGap_at_line_width tableId (c : Config) (V L : number) :
  Rec.get tableId (tableWrapperWidth (store c)) = Some L ->
  viewWidth (store c) = Some V ->
  lineWidthOf (host c) = Some L ->
  L < V ->
  let c' := snd (calcLeftGap lineWidthOf tableId c) in
  ltb L L = false /\
  Rec.get tableId (leftGap (store c')) = Some ((V - L) / px 2) /\
  emitted c' = emitted c ++ [LeftGapChanged tableId ((V - L) / px 2)] /\
  0 < (V - L) / px 2 /\
  (L - L) / px 2 = 0.
Proof.
  intros Hw HV HL Hlt c'.
  destruct (calcLeftGap_store _ _ Hw HV HL) as [E1 E2]. subst c'.
  assert (G : newLeftGap L L V = (V - L) / px 2).
  { unfold newLeftGap. rewrite ltb_irrefl. reflexivity. }
  rewrite E1, E2, G. simpl. rewrite RecFacts.get_set_same.
  split; [apply ltb_irrefl |]. split; [reflexivity |]. split; [reflexivity |].
  split; [apply half_diff_pos; exact Hlt |].
  apply Qc_is_canon. to_Q. lra.
Qed.

(** C3.  Missing dependency: [calcLeftGap] throws, and leaves the whole
    configuration as it was (no left gap stored, no event published),
    whenever the wrapper width of the table is undefined, or the view width
    is undefined, or the host shows no line width; the error says which is
    missing first.  When the three are defined none of these errors can
    come out: the call ends normally, or with the failure of a listener,
    and it ends normally when no [leftGap] listener throws. *)
Theorem calcLeftGap_missing_dependency tableId (c : Config) :
  (Rec.get tableId (tableWrapperWidth (store c)) = None \/
   viewWidth (store c) = None \/
   lineWidthOf (host c) = None ->
   exists e, calcLeftGap lineWidthOf tableId c = (Abrupt e, c) /\ missingDependency e = true) /\
  (Rec.get tableId (tableWrapperWidth (store c)) = None ->
   calcLeftGap lineWidthOf tableId c = (Abrupt (TableWrapperWidthNotFound tableId), c)) /\
  (Rec.get tableId (tableWrapperWidth (store c)) <> None ->
   viewWidth (store c) = None ->
   calcLeftGap lineWidthOf tableId c = (Abrupt ViewWidthNotInitialized, c)) /\
  (Rec.get tableId (tableWrapperWidth (store c)) <> None ->
   viewWidth (store c) <> None ->
   lineWidthOf (host c) = None ->
   calcLeftGap lineWidthOf tableId c = (Abrupt LineWidthNotInitialized, c)) /\
  (Rec.get tableId (tableWrapperWidth (store c)) <> None ->
   viewWidth (store c) <> None ->
   lineWidthOf (host c) <> None ->
   (forall e, fst (calcLeftGap lineWidthOf tableId c) = Abrupt e -> missingDependency e = false) /\
   (calm KLeftGap (store c) -> fst (calcLeftGap lineWidthOf tableId c) = Normal)).
Proof.
  unfold calcLeftGap.
  destruct (Rec.get tableId (tableWrapperWidth (store c))) as [w |] eqn:Hw;
    destruct (viewWidth (store c)) as [V |] eqn:HV;
    destruct (lineWidthOf (host c)) as [L |] eqn:HL;
    (split; [intros [H | [H | H]]; try discriminate H; eexists; split; reflexivity |]);
    (split; [intro H; try discriminate H; reflexivity |]);
    (split; [intros H1 H2; try discriminate H2; try (exfalso; apply H1; reflexivity); reflexivity |]);
    (split; [intros H1 H2 H3; try discriminate H3;
             try (exfalso; apply H1; reflexivity); try (exfalso; apply H2; reflexivity);
             reflexivity |]);
    intros H1 H2 H3;
    try (exfalso; apply H1; reflexivity);
    try (exfalso; apply H2; reflexivity);
    try (exfalso; apply H3; reflexivity).
  split.
  - intros e He.
    change (fst (notify KLeftGap (tableId, newLeftGap w L V)
                        (mkConfig (with_leftGap tableId (newLeftGap w L V) (store c))
                                  (host c) (emitted c))) = Abrupt e) in He.
    destruct (notify_completion _ _ _ He) as [msg ->]. reflexivity.
  - intro Hcalm.
    change (fst (notify KLeftGap (tableId, newLeftGap w L V)
                        (mkConfig (with_leftGap tableId (newLeftGap w L V) (store c))
                                  (host c) (emitted c))) = Normal).
    rewrite notify_returns; [reflexivity |].
    intros callback Hin. apply Hcalm. exact Hin.
Qed.


End CalcLeftGap.

(** ** The two setters *)

Section Setters.

Variable Host : Type.
Variable lineWidthOf : Host -> option number.

Local Abbreviation Config := (Config Host).
Local Abbreviation TableMap := (TableMap Host).

Lemma preserves_setTableWrapperWidth (P : TableMap -> Prop) tableId width :
  (forall s, P s -> P (with_tableWrapperWidth tableId width s)) ->
  stableUnderLeftGap lineWidthOf P tableId ->
  preserves P (setTableWrapperWidth lineWidthOf tableId width).
Proof.
  intros Hw Hg c H. unfold setTableWrapperWidth.
  destruct (strictNe _ _); [| exact H].
  revert c H. fold (preserves P).
  apply preserves_andThen; [apply preserves_modify; exact Hw |].
  apply preserves_andThen; [apply preserves_notify |].
  apply preserves_calcLeftGap. exact Hg.
Qed.

Lemma preserves_setViewWidth (P : TableMap -> Prop) width :
  (forall s, P s -> P (with_viewWidth width s)) ->
  (forall tableId, stableUnderLeftGap lineWidthOf P tableId) ->
  preserves P (setViewWidth lineWidthOf width).
Proof.
  intros Hv Hg. unfold setViewWidth.
  apply preserves_andThen; [apply preserves_modify; exact Hv |].
  apply preserves_andThen; [apply preserves_notify |].
  apply (preserves_dyn (fun c0 => forOf (Rec.keys (leftGap (store c0))) (calcLeftGap lineWidthOf))).
  intro c0. apply preserves_forOf. intro tableId. apply preserves_calcLeftGap. apply Hg.
Qed.

Lemma setTableWrapperWidth_changed tableId width (c : Config) :
  Rec.get tableId (tableWrapperWidth (store c)) <> Some width ->
  setTableWrapperWidth lineWidthOf tableId width c
  = andThen (notify KTableWrapperWidth (tableId, width)) (calcLeftGap lineWidthOf tableId)
            (widthStored tableId width c).
Proof.
  intro H. apply strictNe_true in H. unfold setTableWrapperWidth. rewrite H. reflexivity.
Qed.

Lemma setTableWrapperWidth_unchanged tableId width (c : Config) :
  Rec.get tableId (tableWrapperWidth (store c)) = Some width ->
  setTableWrapperWidth lineWidthOf tableId width c = (Normal, c).
Proof.
  intro H. apply strictNe_false in H. unfold setTableWrapperWidth. rewrite H. reflexivity.
Qed.

(** After the call the width asked for is the width stored, in all cases. *)
Lemma setTableWrapperWidth_stored tableId width (c : Config) :
  Rec.get tableId (tableWrapperWidth (store (snd (setTableWrapperWidth lineWidthOf tableId width c))))
  = Some width.
Proof.
  destruct (strictNe (Rec.get tableId (tableWrapperWidth (store c))) width) eqn:E.
  - apply strictNe_true in E. rewrite setTableWrapperWidth_changed by exact E.
    apply (@preserves_andThen _ (fun s => Rec.get tableId (tableWrapperWidth s) = Some width)).
    + apply preserves_notify.
    + apply preserves_calcLeftGap. intros s w V L h H _ _ _. exact H.
    + simpl. apply RecFacts.get_set_same.
  - apply strictNe_false in E. rewrite setTableWrapperWidth_unchanged by exact E. exact E.
Qed.

(** What a call with a new width has done for sure, also when it throws. *)
Lemma setTableWrapperWidth_changed_effect tableId width (c : Config) :
  Rec.get tableId (tableWrapperWidth (store c)) <> Some width ->
  let c' := snd (setTableWrapperWidth lineWidthOf tableId width c) in
  tableWrapperWidth (store c') = Rec.set tableId width (tableWrapperWidth (store c)) /\
  exists rest,
    emitted c' = emitted c ++ TableWrapperWidthChanged tableId width :: rest /\
    (rest = [] \/ exists left, rest = [LeftGapChanged tableId left]).
Proof.
  intros H c'. subst c'. rewrite setTableWrapperWidth_changed by exact H.
  unfold andThen.
  destruct (notify_frame KTableWrapperWidth (tableId, width) (widthStored tableId width c))
    as [E1 E2].
  split.
  - destruct (notify _ _ _) as [[| e] c1]; simpl in *.
    + assert (P : tableWrapperWidth (store (snd (calcLeftGap lineWidthOf tableId c1)))
                  = tableWrapperWidth (store c1)).
      { apply (@preserves_calcLeftGap _ lineWidthOf
                 (fun s => tableWrapperWidth s = tableWrapperWidth (store c1))).
        - intros s w V L h Hs _ _ _. exact Hs.
        - reflexivity. }
      rewrite P, E1. reflexivity.
    + rewrite E1. reflexivity.
  - destruct (notify _ _ _) as [[| e] c1]; simpl in *.
    + destruct (calcLeftGap_cases lineWidthOf tableId c1)
        as [[e [E _]] | [w [V [L [_ [_ [_ [_ E]]]]]]]].
      * rewrite E. simpl. rewrite E2. exists []. auto.
      * rewrite E, E2. eexists. rewrite <- app_assoc. simpl. split; [reflexivity |]. eauto.
    + rewrite E2. exists []. auto.
Qed.

(** C4.  Change detection: [setTableWrapperWidth] with the width already
    stored for the table leaves the whole configuration as it was (no
    write, no event, no recomputation).  With a width that differs, or for
    a table not seen before, it stores the width and publishes one
    [tableWrapperWidth] event with the table and the width, followed by at
    most the one [leftGap] event of the recomputation; once the
    [tableWrapperWidth] listeners have returned it goes on as [calcLeftGap]
    for the table, and a call that ends normally has recomputed and
    published the left gap.  A second call with the same width right after
    the first does nothing more. *)
Theorem setTableWrapperWidth_change_detection tableId width (c : Config) :
  let r := setTableWrapperWidth lineWidthOf tableId width c in
  (Rec.get tableId (tableWrapperWidth (store c)) = Some width -> r = (Normal, c)) /\
  (Rec.get tableId (tableWrapperWidth (store c)) <> Some width ->
   tableWrapperWidth (store (snd r)) = Rec.set tableId width (tableWrapperWidth (store c)) /\
   (exists rest,
       emitted (snd r) = emitted c ++ TableWrapperWidthChanged tableId width :: rest /\
       (rest = [] \/ exists left, rest = [LeftGapChanged tableId left])) /\
   (calm KTableWrapperWidth (store c) ->
    r = calcLeftGap lineWidthOf tableId
          (mkConfig (with_tableWrapperWidth tableId width (store c))
                    (hostAfterAll (fun callback : EntityListener Host => callback tableId width)
                                  (on_tableWrapperWidth (changeEventListeners (store c)))
                                  (host c))
                    (emitted c ++ [TableWrapperWidthChanged tableId width]))) /\
   (fst r = Normal ->
    exists left,
      Rec.get tableId (leftGap (store (snd r))) = Some left /\
      emitted (snd r)
      = emitted c ++ [TableWrapperWidthChanged tableId width; LeftGapChanged tableId left])) /\
  setTableWrapperWidth lineWidthOf tableId width (snd r) = (Normal, snd r).
Proof.
  intro r. split; [| split].
  - intro H. apply setTableWrapperWidth_unchanged. exact H.
  - intro H. destruct (@setTableWrapperWidth_changed_effect tableId width c H) as [D1 D2].
    split; [exact D1 |]. split; [exact D2 |]. split.
    + intro Hcalm. subst r. rewrite setTableWrapperWidth_changed by exact H.
      unfold andThen.
      rewrite notify_returns by (intros callback Hin; apply Hcalm; exact Hin).
      reflexivity.
    + subst r. rewrite setTableWrapperWidth_changed by exact H. unfold andThen.
      destruct (notify_frame KTableWrapperWidth (tableId, width) (widthStored tableId width c))
        as [_ E2].
      destruct (notify _ _ _) as [[| e] c1]; simpl in *; [| discriminate].
      destruct (calcLeftGap_cases lineWidthOf tableId c1)
        as [[e [E _]] | [w [V [L [_ [_ [_ [E1 E3]]]]]]]].
      * rewrite E. discriminate.
      * intros _. exists (newLeftGap w L V). rewrite E1, E3, E2. simpl.
        rewrite RecFacts.get_set_same, <- app_assoc. auto.
  - apply setTableWrapperWidth_unchanged. apply setTableWrapperWidth_stored.
Qed.

Lemma setViewWidth_keeps_wrapperWidths width (c : Config) :
  let c' := snd (setViewWidth lineWidthOf width c) in
  tableWrapperWidth (store c') = tableWrapperWidth (store c) /\
  changeEventListeners (store c') = changeEventListeners (store c).
Proof.
  intro c'. subst c'.
  apply (@preserves_setViewWidth
           (fun s => tableWrapperWidth s = tableWrapperWidth (store c) /\
                     changeEventListeners s = changeEventListeners (store c))).
  - intros s H. exact H.
  - intros tableId s w V L h H _ _ _. exact H.
  - auto.
Qed.

(** C10.  Frame: [setTableWrapperWidth] for one table leaves the wrapper
    width and the left gap stored for every other table as they were, and
    [setViewWidth] leaves the whole [tableWrapperWidth] record (and the
    listeners) as they were; this holds also for calls that throw. *)
Theorem setters_frame (c : Config) (width : number) :
  (forall tableId tableId',
      tableId <> tableId' ->
      let c' := snd (setTableWrapperWidth lineWidthOf tableId width c) in
      Rec.get tableId' (tableWrapperWidth (store c')) = Rec.get tableId' (tableWrapperWidth (store c)) /\
      Rec.get tableId' (leftGap (store c')) = Rec.get tableId' (leftGap (store c)) /\
      viewWidth (store c') = viewWidth (store c)) /\
  (let c' := snd (setViewWidth lineWidthOf width c) in
   tableWrapperWidth (store c') = tableWrapperWidth (store c) /\
   changeEventListeners (store c') = changeEventListeners (store c)).
Proof.
  split.
  - intros tableId tableId' N c'. subst c'.
    apply (@preserves_setTableWrapperWidth
             (fun s => Rec.get tableId' (tableWrapperWidth s)
                       = Rec.get tableId' (tableWrapperWidth (store c)) /\
                       Rec.get tableId' (leftGap s) = Rec.get tableId' (leftGap (store c)) /\
                       viewWidth s = viewWidth (store c))).
    + intros s [H1 [H2 H3]]. simpl. rewrite (RecFacts.get_set_other _ _ N). auto.
    + intros s w V L h [H1 [H2 H3]] _ _ _. simpl. rewrite (RecFacts.get_set_other _ _ N). auto.
    + auto.
  - apply setViewWidth_keeps_wrapperWidths.
Qed.

(** *** Events are only ever added *)

Lemma grows_andThen (a b : Action Host) : grows a -> grows b -> grows (andThen a b).
Proof.
  intros Ha Hb c. unfold andThen. destruct (Ha c) as [r1 E1].
  destruct (a c) as [[| e] c1]; simpl in *.
  - destruct (Hb c1) as [r2 E2]. exists (r1 ++ r2). rewrite E2, E1. symmetry. apply app_assoc.
  - exists r1. exact E1.
Qed.

Lemma grows_notify event args : grows (@notify Host event args).
Proof.
  intro c. destruct (notify_frame event args c) as [_ E]. eauto.
Qed.

Lemma grows_calcLeftGap tableId : grows (calcLeftGap lineWidthOf tableId).
Proof.
  intro c.
  destruct (calcLeftGap_cases lineWidthOf tableId c)
    as [[e [E _]] | [w [V [L [_ [_ [_ [_ E]]]]]]]].
  - rewrite E. exists []. simpl. symmetry. apply app_nil_r.
  - eauto.
Qed.

Lemma grows_forOf (A : Type) (body : A -> Action Host) xs :
  (forall x, grows (body x)) -> grows (forOf xs body).
Proof.
  intro Hb. induction xs as [| x xs IH]; simpl.
  - intro c. exists []. simpl. symmetry. apply app_nil_r.
  - apply grows_andThen; [apply Hb | exact IH].
Qed.

(** After [setViewWidth] the width asked for is the view width stored,
    and its event was published first, in all cases. *)
Lemma setViewWidth_stored width (c : Config) :
  viewWidth (store (snd (setViewWidth lineWidthOf width c))) = Some width.
Proof.
  assert (P : preserves (fun s : TableMap => viewWidth s = Some width)
                        (andThen (notify KViewWidth width)
                                 (fun c => forOf (Rec.keys (leftGap (store c)))
                                                 (calcLeftGap lineWidthOf) c))).
  { apply preserves_andThen; [apply preserves_notify |].
    apply (preserves_dyn (fun c0 => forOf (Rec.keys (leftGap (store c0)))
                                          (calcLeftGap lineWidthOf))).
    intro c0. apply preserves_forOf. intro x. apply preserves_calcLeftGap.
    intros s w V L h H _ _ _. exact H. }
  exact (P (mkConfig (with_viewWidth width (store c)) (host c) (emitted c)) eq_refl).
Qed.

Lemma setViewWidth_published width (c : Config) :
  exists rest,
    emitted (snd (setViewWidth lineWidthOf width c)) = emitted c ++ ViewWidthChanged width :: rest.
Proof.
  unfold setViewWidth, andThen, modify.
  match goal with |- context [notify ?ev ?a ?c2] =>
    destruct (notify_frame ev a c2) as [_ G]; destruct (notify ev a c2) as [[| e1] c1]
  end; simpl in G.
  - destruct (@grows_forOf _ (calcLeftGap lineWidthOf) (Rec.keys (leftGap (store c1)))
                           (grows_calcLeftGap) c1) as [rest R].
    exists rest. rewrite R, G. rewrite <- app_assoc. reflexivity.
  - exists []. exact G.
Qed.

(** C7 (as amended).  A setter that throws is not rolled back.  When
    [setTableWrapperWidth] throws, the width was new, it stays stored and
    its event stays published; the left gap of the table is either
    untouched or, when it is a [leftGap] listener that threw, already
    rewritten.  When [setViewWidth] throws, the new view width stays stored
    and its event stays published; the wrapper widths are untouched. *)
Theorem setters_not_rolled_back (c : Config) (width : number) :
  (forall tableId e c',
      setTableWrapperWidth lineWidthOf tableId width c = (Abrupt e, c') ->
      Rec.get tableId (tableWrapperWidth (store c)) <> Some width /\
      tableWrapperWidth (store c') = Rec.set tableId width (tableWrapperWidth (store c)) /\
      Rec.get tableId (tableWrapperWidth (store c')) = Some width /\
      (exists rest, emitted c' = emitted c ++ TableWrapperWidthChanged tableId width :: rest) /\
      (leftGap (store c') = leftGap (store c) \/
       exists left msg,
         leftGap (store c') = Rec.set tableId left (leftGap (store c)) /\
         e = ListenerFailure msg)) /\
  (forall e c',
      setViewWidth lineWidthOf width c = (Abrupt e, c') ->
      viewWidth (store c') = Some width /\
      tableWrapperWidth (store c') = tableWrapperWidth (store c) /\
      (exists rest, emitted c' = emitted c ++ ViewWidthChanged width :: rest)).
Proof.
  split.
  - intros tableId e c' E.
    assert (N : Rec.get tableId (tableWrapperWidth (store c)) <> Some width).
    { intro H. rewrite setTableWrapperWidth_unchanged in E by exact H. discriminate E. }
    split; [exact N |].
    destruct (@setTableWrapperWidth_changed_effect tableId width c N) as [D1 [rest [D2 _]]].
    rewrite E in D1, D2. simpl in D1, D2.
    split; [exact D1 |].
    split; [rewrite D1; apply RecFacts.get_set_same |].
    split; [eauto |].
    rewrite setTableWrapperWidth_changed in E by exact N. unfold andThen in E.
    destruct (notify_frame KTableWrapperWidth (tableId, width) (widthStored tableId width c))
      as [F1 _].
    destruct (notify _ _ _) as [[| e1] c1]; simpl in F1.
    + destruct (Rec.get tableId (tableWrapperWidth (store c1))) as [w |] eqn:Hw;
        [destruct (viewWidth (store c1)) as [V |] eqn:HV;
         [destruct (lineWidthOf (host c1)) as [L |] eqn:HL |] |];
        try (left; unfold calcLeftGap in E; rewrite Hw, ?HV, ?HL in E;
             injection E as _ <-; rewrite F1; reflexivity).
      right. rewrite (calcLeftGap_defined _ _ _ Hw HV HL) in E.
      match type of E with notify ?ev ?a ?c2 = _ =>
        destruct (notify_frame ev a c2) as [G1 _];
        pose proof (@notify_completion _ ev a c2 e) as G2
      end.
      rewrite E in G1, G2. simpl in G1, G2. destruct (G2 eq_refl) as [msg ->].
      exists (newLeftGap w L V), msg. rewrite G1. simpl. rewrite F1. auto.
    + injection E as _ <-. left. rewrite F1. reflexivity.
  - intros e c' E.
    split; [| split].
    + change c' with (snd (Abrupt e, c')). rewrite <- E. apply setViewWidth_stored.
    + destruct (setViewWidth_keeps_wrapperWidths width c) as [F _]. rewrite E in F. exact F.
    + change c' with (snd (Abrupt e, c')). rewrite <- E. apply setViewWidth_published.
Qed.

End Setters.

(** ** Sessions and their invariants *)

Section Sessions.

Variable Host : Type.
Variable lineWidthOf : Host -> option number.

Local Abbreviation Config := (Config Host).
Local Abbreviation TableMap := (TableMap Host).

(** A property of the store that every admissible step keeps holds all
    along a session. *)
Lemma run_invariant (P : TableMap -> Prop) (Q : Op Host -> Prop) :
  (forall op c, Q op -> P (store c) -> P (store (exec lineWidthOf op c))) ->
  forall ops c, Forall Q ops -> P (store c) -> P (store (run lineWidthOf ops c)).
Proof.
  intros Hstep ops. induction ops as [| op ops IH]; intros c HQ HP; simpl.
  - exact HP.
  - inversion HQ as [| ? ? Hop Hops]; subst. apply IH; [exact Hops |].
    apply Hstep; assumption.
Qed.

Lemma addChangeEventListener_data event (callback : Callback Host event) (s : TableMap) :
  viewWidth (addChangeEventListener event callback s) = viewWidth s /\
  tableWrapperWidth (addChangeEventListener event callback s) = tableWrapperWidth s /\
  leftGap (addChangeEventListener event callback s) = leftGap s.
Proof. destruct event; simpl; auto. Qed.

Lemma newLeftGap_nonneg (w L V : number) : L <= V -> 0 <= newLeftGap w L V.
Proof.
  intro H. unfold newLeftGap.
  destruct (ltb w L) eqn:E1; [apply Qcle_refl |].
  destruct (ltb L w) eqn:E2; destruct (ltb w V) eqn:E3; simpl;
    try (apply half_diff_nonneg; exact H).
  apply half_diff_nonneg. apply Qclt_le_weak. apply ltb_lt. exact E2.
Qed.



(** *** The [leftGap] record stays well formed *)

Lemma NoDup_keys_set (k : TableId) (v : number) (r : Rec.t) :
  NoDup (Rec.keys r) -> NoDup (Rec.keys (Rec.set k v r)).
Proof.
  intro H. destruct (in_dec string_dec k (Rec.keys r)) as [I | N].
  - rewrite RecFacts.keys_set_present by exact I. exact H.
  - rewrite RecFacts.keys_set_absent by exact N.
    apply NoDup_app; [exact H | repeat constructor; intros [] | ].
    intros x Hx [<- | []]. exact (N Hx).
Qed.

Lemma In_keys_set (k k' : TableId) (v : number) (r : Rec.t) :
  In k' (Rec.keys (Rec.set k v r)) -> k' = k \/ In k' (Rec.keys r).
Proof.
  intro H. destruct (in_dec string_dec k (Rec.keys r)) as [I | N].
  - rewrite RecFacts.keys_set_present in H by exact I. auto.
  - rewrite RecFacts.keys_set_absent in H by exact N.
    apply in_app_or in H. destruct H as [H | [<- | []]]; auto.
Qed.

Lemma exec_keeps_wellFormed (op : Op Host) (c : Config) :
  wellFormed (store c) -> wellFormed (store (exec lineWidthOf op c)).
Proof.
  assert (G : forall tableId, stableUnderLeftGap lineWidthOf (@wellFormed Host) tableId).
  { intros tableId s w V L h [H1 H2] Ew _ _. split; simpl.
    - apply NoDup_keys_set. exact H1.
    - intros k Hk. destruct (In_keys_set _ _ _ _ Hk) as [-> | Hk'].
      + congruence.
      + apply H2. exact Hk'. }
  destruct op as [tableId width | width | event callback | h]; simpl.
  - apply (@preserves_setTableWrapperWidth _ lineWidthOf (@wellFormed Host)).
    + intros s [H1 H2]. split; simpl; [exact H1 |].
      intros k Hk. destruct (string_dec tableId k) as [<- | N].
      * rewrite RecFacts.get_set_same. discriminate.
      * rewrite (RecFacts.get_set_other _ _ N). apply H2. exact Hk.
    + apply G.
  - apply (@preserves_setViewWidth _ lineWidthOf (@wellFormed Host)).
    + intros s H. exact H.
    + exact G.
  - destruct (addChangeEventListener_data event callback (store c)) as [_ [E2 E3]].
    unfold wellFormed. rewrite E2, E3. auto.
  - auto.
Qed.

Lemma reachable_wellFormed (ops : list (Op Host)) (h0 : Host) :
  wellFormed (store (run lineWidthOf ops (initial h0))).
Proof.
  apply (@run_invariant (@wellFormed Host) (fun _ => True)).
  - intros op c _. apply exec_keeps_wellFormed.
  - clear. induction ops; constructor; auto.
  - split; simpl; [constructor | intros k []].
Qed.

(** *** The loop of [setViewWidth] over the keys of [leftGap] *)

Lemma set_middle (k : TableId) (v g : number) (pre suf : Rec.t) :
  ~ In k (Rec.keys pre) ->
  Rec.set k g (pre ++ (k, v) :: suf) = pre ++ (k, g) :: suf.
Proof.
  induction pre as [| [k' v'] pre IH]; simpl; intro N.
  - rewrite String.eqb_refl. reflexivity.
  - destruct (String.eqb k k') eqn:E.
    + apply String.eqb_eq in E. exfalso. apply N. left. congruence.
    + rewrite IH; [reflexivity |]. intro I. apply N. right. exact I.
Qed.

Lemma recompute_loop (suf : Rec.t) :
  forall (pre : Rec.t) (c : Config) (V : number),
    leftGap (store c) = pre ++ suf ->
    NoDup (Rec.keys (pre ++ suf)) ->
    viewWidth (store c) = Some V ->
    (forall k, In k (Rec.keys suf) -> Rec.get k (tableWrapperWidth (store c)) <> None) ->
    (forall h, lineWidthOf h <> None) ->
    calm KLeftGap (store c) ->
    exists c' suf',
      forOf (Rec.keys suf) (calcLeftGap lineWidthOf) c = (Normal, c') /\
      leftGap (store c') = pre ++ suf' /\
      Rec.keys suf' = Rec.keys suf /\
      viewWidth (store c') = Some V /\
      tableWrapperWidth (store c') = tableWrapperWidth (store c) /\
      changeEventListeners (store c') = changeEventListeners (store c) /\
      emitted c' = emitted c ++ map leftGapEvent suf' /\
      (forall k g, In (k, g) suf' ->
                   exists w L h,
                     Rec.get k (tableWrapperWidth (store c)) = Some w /\
                     lineWidthOf h = Some L /\
                     g = newLeftGap w L V).
Proof.
  induction suf as [| [k v] suf IH]; intros pre c V Hgap Hnd HV Hw Hline Hcalm.
  - exists c, []. simpl. rewrite !app_nil_r in *.
    repeat split; auto. intros k g [].
  - simpl. unfold andThen.
    destruct (Rec.get k (tableWrapperWidth (store c))) as [w |] eqn:Ew;
      [| exfalso; apply (Hw k); [left; reflexivity | exact Ew]].
    destruct (lineWidthOf (host c)) as [L |] eqn:EL; [| exfalso; exact (Hline _ EL)].
    rewrite (calcLeftGap_defined _ _ _ Ew HV EL).
    rewrite notify_returns by (intros callback Hin; apply Hcalm; exact Hin).
    assert (Nk : ~ In k (Rec.keys pre)).
    { unfold Rec.keys in Hnd. rewrite map_app in Hnd. simpl in Hnd.
      apply NoDup_remove_2 in Hnd. intro I. apply Hnd. apply in_or_app. left. exact I. }
    match goal with |- context [forOf _ _ ?c1] => set (c1' := c1) end.
    destruct (IH (pre ++ [(k, newLeftGap w L V)]) c1' V) as [c' [suf' [E [G [K [V' [W [Ls [Ev Vals]]]]]]]]].
    + subst c1'. simpl. rewrite Hgap. rewrite set_middle by exact Nk.
      rewrite <- app_assoc. reflexivity.
    + rewrite <- app_assoc. simpl. unfold Rec.keys in *.
      rewrite map_app in *. simpl in *. exact Hnd.
    + exact HV.
    + intros k' Hk'. subst c1'. simpl. apply Hw. right. exact Hk'.
    + exact Hline.
    + exact Hcalm.
    + exists c', ((k, newLeftGap w L V) :: suf').
      split; [exact E |].
      split; [rewrite G, <- app_assoc; reflexivity |].
      split; [simpl; rewrite K; reflexivity |].
      split; [exact V' |].
      split; [exact W |].
      split; [exact Ls |].
      split.
      * rewrite Ev. subst c1'. simpl. rewrite <- app_assoc. reflexivity.
      * intros k' g [[= <- <-] | I].
        -- exists w, L, (host c). auto.
        -- exact (Vals _ _ I).
Qed.

(** C2 (as amended).  In every state a session can reach, [setViewWidth]
    stores the width and publishes a [viewWidth] event first, whether or
    not the width differs from the one stored before.  When the host shows
    a line width and no listener throws, the call ends normally and has
    recomputed, in key order, the left gap of every table that has a left
    gap stored: the [leftGap] events published are those of the entries of
    the [leftGap] record after the call, whose keys are those before it;
    each value is the three-way rule at the new view width.  A table whose
    wrapper width is recorded but that has no left gap stored is not
    recomputed. *)
Theorem setViewWidth_recomputes_stored_gaps (ops : list (Op Host)) (h0 : Host) (width : number) :
  let c := run lineWidthOf ops (initial h0) in
  let c' := snd (setViewWidth lineWidthOf width c) in
  viewWidth (store c') = Some width /\
  (exists rest, emitted c' = emitted c ++ ViewWidthChanged width :: rest) /\
  ((forall h, lineWidthOf h <> None) ->
   calm KViewWidth (store c) ->
   calm KLeftGap (store c) ->
   fst (setViewWidth lineWidthOf width c) = Normal /\
   Rec.keys (leftGap (store c')) = Rec.keys (leftGap (store c)) /\
   emitted c' = emitted c ++ ViewWidthChanged width :: map leftGapEvent (leftGap (store c')) /\
   (forall tableId left,
       In (tableId, left) (leftGap (store c')) ->
       exists w L h,
         Rec.get tableId (tableWrapperWidth (store c)) = Some w /\
         lineWidthOf h = Some L /\
         left = newLeftGap w L width)).
Proof.
  intros c c'.
  assert (WF : wellFormed (store c)) by apply reachable_wellFormed.
  split; [| split].
  - apply setViewWidth_stored.
  - apply setViewWidth_published.
  - intros Hline HcalmV HcalmG. subst c'.
    unfold setViewWidth, andThen, modify.
    rewrite notify_returns by (intros callback Hin; apply HcalmV; exact Hin).
    destruct WF as [Hnd Hsub].
    match goal with |- context [forOf _ _ ?c1] =>
      destruct (@recompute_loop (leftGap (store c)) [] c1 width eq_refl Hnd eq_refl Hsub
                                Hline HcalmG)
        as [c2 [suf' [E [G [K [_ [_ [_ [Ev Vals]]]]]]]]]
    end.
    simpl in *. rewrite E. simpl. rewrite G. simpl.
    split; [reflexivity |]. split; [exact K |].
    split; [rewrite Ev; simpl; rewrite <- app_assoc; reflexivity |].
    exact Vals.
Qed.

(** *** Registration and fan-out *)

Lemma forOf_call_normal (A : Type) (g : A -> Host -> CallbackResult Host) xs (c c' : Config) :
  forOf xs (fun x => call (g x)) c = (Normal, c') ->
  c' = mkConfig (store c) (hostAfterAll g xs (host c)) (emitted c).
Proof.
  revert c. induction xs as [| x xs IH]; intro c; simpl.
  - intros [= <-]. destruct c; reflexivity.
  - unfold andThen, call, hostAfterAll. simpl.
    destruct (g x (host c)) as [h | msg h]; simpl; [| discriminate].
    intro E. apply IH in E. exact E.
Qed.

Lemma listenersOf_add event (callback : Callback Host event) (s : TableMap) :
  listenersOf event (addChangeEventListener event callback s) = listenersOf event s ++ [callback].
Proof. destruct event; reflexivity. Qed.

Lemma listenersOf_add_other event event' (callback : Callback Host event) (s : TableMap) :
  event' <> event ->
  listenersOf event' (addChangeEventListener event callback s) = listenersOf event' s.
Proof. intro N. destruct event, event'; try reflexivity; exfalso; apply N; reflexivity. Qed.

(** C8.  Any number of listeners can be registered for a kind; they are
    kept in registration order, after those already there, and the other
    kinds are left alone.  A notification of that kind that ends normally
    has called every one of them once, in that order, each with the same
    arguments: the host is the one their calls leave one after the other.
    It ends normally when no listener of the kind throws. *)
Theorem listeners_fan_out (event : EventKind) (callbacks : list (Callback Host event))
        (s : TableMap) (args : ListenerArgs event) (h : Host) (evs : list ChangeEvent) :
  let s' := addChangeEventListeners event callbacks s in
  let invoked :=
    hostAfterAll (fun callback => applyCallback event callback args)
                 (listenersOf event s ++ callbacks) h in
  listenersOf event s' = listenersOf event s ++ callbacks /\
  (forall event', event' <> event -> listenersOf event' s' = listenersOf event' s) /\
  (calm event s' ->
   notify event args (mkConfig s' h evs)
   = (Normal, mkConfig s' invoked (evs ++ [eventOf event args]))) /\
  (forall c', notify event args (mkConfig s' h evs) = (Normal, c') ->
              c' = mkConfig s' invoked (evs ++ [eventOf event args])).
Proof.
  intros s' invoked.
  assert (R : listenersOf event s' = listenersOf event s ++ callbacks).
  { subst s'. clear. revert s. unfold addChangeEventListeners.
    induction callbacks as [| cb cbs IH]; intro s; simpl.
    - symmetry. apply app_nil_r.
    - rewrite IH, listenersOf_add, <- app_assoc. reflexivity. }
  split; [exact R |]. split; [| split].
  - intros event' N. subst s'. clear - N. revert s. unfold addChangeEventListeners.
    induction callbacks as [| cb cbs IH]; intro s; simpl.
    + reflexivity.
    + rewrite IH. apply listenersOf_add_other. exact N.
  - intro Hcalm.
    rewrite notify_returns by (intros callback Hin; apply Hcalm; exact Hin).
    simpl. subst invoked. rewrite R. reflexivity.
  - intros c' E. unfold notify, andThen, publish in E. simpl in E.
    apply forOf_call_normal in E. simpl in E. subst invoked. rewrite <- R. exact E.
Qed.

End Sessions.

(** ** The claims at concrete inputs *)

Import Fixture.

(** The scenario of the specification: line 400, view 1000, then the table
    300, 700 and 1400 wide, then the view 1200. *)
Example scenario_events :
  emitted (run fixedLine (scenario ++ [OpSetViewWidth (px 1200)]) (initial tt))
  = [ViewWidthChanged (px 1000);
     TableWrapperWidthChanged "t1" (px 300);
     LeftGapChanged "t1" (newLeftGap (px 300) (px 400) (px 1000));
     TableWrapperWidthChanged "t1" (px 700);
     LeftGapChanged "t1" (newLeftGap (px 700) (px 400) (px 1000));
     TableWrapperWidthChanged "t1" (px 1400);
     LeftGapChanged "t1" (newLeftGap (px 1400) (px 400) (px 1000));
     ViewWidthChanged (px 1200);
     LeftGapChanged "t1" (newLeftGap (px 1400) (px 400) (px 1200))].
Proof. reflexivity. Qed.

Example scenario_values :
  newLeftGap (px 300) (px 400) (px 1000) = px 0 /\
  newLeftGap (px 700) (px 400) (px 1000) = px 150 /\
  newLeftGap (px 1400) (px 400) (px 1000) = px 300 /\
  newLeftGap (px 1400) (px 400) (px 1200) = px 400.
Proof. repeat split; apply Qc_is_canon; reflexivity. Qed.

Lemma calcLeftGap_piecewise_witness :
  Rec.get "t1" (leftGap (store (snd (calcLeftGap fixedLine "t1" oneTable))))
  = Some ((px 700 - px 400) / px 2) /\
  emitted (snd (calcLeftGap fixedLine "t1" oneTable))
  = emitted oneTable ++ [LeftGapChanged "t1" ((px 700 - px 400) / px 2)].
Proof.
  pose proof (@calcLeftGap_piecewise unit fixedLine "t1" oneTable (px 700) (px 1000) (px 400)
                                     eq_refl eq_refl eq_refl) as H.
  cbv zeta in H. destruct H as [_ [H _]].
  apply H; reflexivity.
Defined.

Lemma calcLeftGap_at_line_width_witness :
  Rec.get "t1" (leftGap (store (snd (calcLeftGap fixedLine "t1" tableAtLineWidth))))
  = Some ((px 1000 - px 400) / px 2).
Proof.
  pose proof (@calcLeftGap_at_line_width unit fixedLine "t1" tableAtLineWidth (px 1000) (px 400)
                                         eq_refl eq_refl eq_refl) as H.
  cbv zeta in H. apply H. reflexivity.
Defined.

Lemma calcLeftGap_missing_dependency_witness :
  calcLeftGap fixedLine "t1" reportedTooEarly = (Abrupt ViewWidthNotInitialized, reportedTooEarly).
Proof.
  destruct (calcLeftGap_missing_dependency fixedLine "t1" reportedTooEarly) as [_ [_ [H _]]].
  apply H; [discriminate | reflexivity].
Defined.


Lemma setTableWrapperWidth_change_detection_witness :
  setTableWrapperWidth fixedLine "t1" (px 700) oneTable = (Normal, oneTable) /\
  tableWrapperWidth (store (snd (setTableWrapperWidth fixedLine "t1" (px 900) oneTable)))
  = [("t1", px 900)].
Proof.
  pose proof (setTableWrapperWidth_change_detection fixedLine "t1" (px 700) oneTable) as H1.
  pose proof (setTableWrapperWidth_change_detection fixedLine "t1" (px 900) oneTable) as H2.
  cbv zeta in H1, H2. destruct H1 as [H1 _]. destruct H2 as [_ [H2 _]].
  split.
  - apply H1. reflexivity.
  - apply H2. apply strictNe_true. reflexivity.
Defined.

Lemma setters_frame_witness :
  Rec.get "t1" (tableWrapperWidth (store (snd (setTableWrapperWidth fixedLine "t2" (px 900) oneTable))))
  = Some (px 700).
Proof.
  destruct (setters_frame fixedLine oneTable (px 900)) as [H _].
  apply (H "t2" "t1"). discriminate.
Defined.

Lemma setters_not_rolled_back_witness :
  Rec.get "t1" (tableWrapperWidth (store reportedTooEarly)) = Some (px 300).
Proof.
  destruct (setters_not_rolled_back fixedLine (initial tt) (px 300)) as [H _].
  apply (H "t1" ViewWidthNotInitialized reportedTooEarly). reflexivity.
Defined.

Lemma setViewWidth_recomputes_stored_gaps_witness :
  fst (setViewWidth fixedLine (px 1200) (run fixedLine scenario (initial tt))) = Normal.
Proof.
  pose proof (setViewWidth_recomputes_stored_gaps fixedLine scenario tt (px 1200)) as H.
  cbv zeta in H. destruct H as [_ [_ H]].
  apply H.
  - intro h. discriminate.
  - intros callback args I. vm_compute in I. destruct I.
  - intros callback args I. vm_compute in I. destruct I.
Defined.


Lemma listeners_fan_out_witness :
  notify KLeftGap ("t1", px 150)
         (mkConfig (addChangeEventListeners KLeftGap [recorder "first"; recorder "second"]
                                            (newTableMap Journal)) [] [])
  = (Normal,
     mkConfig (addChangeEventListeners KLeftGap [recorder "first"; recorder "second"]
                                       (newTableMap Journal))
              [("first", "t1", px 150); ("second", "t1", px 150)]
              [LeftGapChanged "t1" (px 150)]).
Proof.
  pose proof (@listeners_fan_out Journal KLeftGap [recorder "first"; recorder "second"]
                                 (newTableMap Journal) ("t1", px 150) [] []) as H.
  cbv zeta in H. destruct H as [_ [_ [H _]]].
  apply H. intros callback args [<- | [<- | []]] journal; eexists; reflexivity.
Defined.

(** C2, counterexample.  The table was reported before any view width was
    set, so its report threw after its wrapper width was recorded.  The
    next [setViewWidth] ends normally, publishes its [viewWidth] event and
    nothing else, and the table still has no left gap. *)
Lemma setViewWidth_skips_table_without_leftGap :
  Rec.get "t1" (tableWrapperWidth (store reportedTooEarly)) = Some (px 300) /\
  fst (setViewWidth fixedLine (px 1000) reportedTooEarly) = Normal /\
  emitted (snd (setViewWidth fixedLine (px 1000) reportedTooEarly))
  = emitted reportedTooEarly ++ [ViewWidthChanged (px 1000)] /\
  Rec.get "t1" (leftGap (store (snd (setViewWidth fixedLine (px 1000) reportedTooEarly)))) = None.
Proof. repeat split. Qed.


(** C7, counterexample.  Reporting a table before any view width is set
    throws, and the store is not the one before the call: the wrapper width
    is in it, and its event was published. *)
Lemma setTableWrapperWidth_failure_is_not_atomic :
  fst (setTableWrapperWidth fixedLine "t1" (px 300) (initial tt)) = Abrupt ViewWidthNotInitialized /\
  store (snd (setTableWrapperWidth fixedLine "t1" (px 300) (initial tt))) <> store (initial tt) /\
  tableWrapperWidth (store (snd (setTableWrapperWidth fixedLine "t1" (px 300) (initial tt))))
  = [("t1", px 300)] /\
  emitted (snd (setTableWrapperWidth fixedLine "t1" (px 300) (initial tt)))
  = [TableWrapperWidthChanged "t1" (px 300)].
Proof.
  repeat split. intro E. apply (f_equal (@tableWrapperWidth unit)) in E. discriminate E.
Qed.

(** A listener that throws keeps those registered after it from being
    called: only the first recorder is in the journal. *)
Example thrower_aborts_the_rest :
  notify KLeftGap ("t1", px 150)
         (mkConfig (addChangeEventListeners KLeftGap
                      [recorder "first"; thrower "boom"; recorder "third"]
                      (newTableMap Journal)) [] [])
  = (Abrupt (ListenerFailure "boom"),
     mkConfig (addChangeEventListeners KLeftGap
                 [recorder "first"; thrower "boom"; recorder "third"]
                 (newTableMap Journal))
              [("first", "t1", px 150)]
              [LeftGapChanged "t1" (px 150)]).
Proof. reflexivity. Qed.

(** ** Further properties of the store *)

Section FurtherStore.

Variable Host : Type.
Variable lineWidthOf : Host -> option number.

Local Abbreviation Config := (Config Host).
Local Abbreviation TableMap := (TableMap Host).

Lemma keys_set_grows (k : TableId) (v : number) (r : Rec.t) :
  exists more, Rec.keys (Rec.set k v r) = Rec.keys r ++ more.
Proof.
  destruct (in_dec string_dec k (Rec.keys r)) as [I | N].
  - exists []. rewrite RecFacts.keys_set_present by exact I. symmetry. apply app_nil_r.
  - exists [k]. apply RecFacts.keys_set_absent. exact N.
Qed.

Lemma all_ops_pass (ops : list (Op Host)) : Forall (fun _ => True) ops.
Proof. induction ops; constructor; auto. Qed.

(** The part of the shape of the store that [wellFormed] leaves out. *)
Lemma exec_keeps_shape (op : Op Host) (c : Config) :
  NoDup (Rec.keys (tableWrapperWidth (store c))) /\
  (leftGap (store c) <> [] -> viewWidth (store c) <> None) ->
  NoDup (Rec.keys (tableWrapperWidth (store (exec lineWidthOf op c)))) /\
  (leftGap (store (exec lineWidthOf op c)) <> [] -> viewWidth (store (exec lineWidthOf op c)) <> None).
Proof.
  set (P := fun s : TableMap =>
              NoDup (Rec.keys (tableWrapperWidth s)) /\ (leftGap s <> [] -> viewWidth s <> None)).
  assert (G : forall tableId, stableUnderLeftGap lineWidthOf P tableId).
  { intros tableId s w V L h [H1 H2] _ EV _. split; simpl; [exact H1 | congruence]. }
  destruct op as [tableId width | width | event callback | h]; simpl.
  - apply (@preserves_setTableWrapperWidth _ lineWidthOf P).
    + intros s [H1 H2]. split; simpl; [apply NoDup_keys_set; exact H1 | exact H2].
    + apply G.
  - apply (@preserves_setViewWidth _ lineWidthOf P).
    + intros s [H1 H2]. split; simpl; [exact H1 | discriminate].
    + exact G.
  - destruct (addChangeEventListener_data event callback (store c)) as [E1 [E2 E3]].
    rewrite E1, E2, E3. auto.
  - auto.
Qed.

(** X1.  In every state a session can reach, whatever its listeners do and
    whichever calls threw: no table occurs twice in [tableWrapperWidth] or
    in [leftGap], every table that has a left gap has a wrapper width, and
    a left gap is stored only once a view width is. *)
Theorem session_store_shape (ops : list (Op Host)) (h0 : Host) :
  let s := store (run lineWidthOf ops (initial h0)) in
  NoDup (Rec.keys (tableWrapperWidth s)) /\
  NoDup (Rec.keys (leftGap s)) /\
  (forall tableId, Rec.get tableId (leftGap s) <> None ->
                   Rec.get tableId (tableWrapperWidth s) <> None) /\
  (leftGap s <> [] -> viewWidth s <> None).
Proof.
  intro s. subst s.
  destruct (reachable_wellFormed lineWidthOf ops h0) as [W1 W2].
  assert (S : NoDup (Rec.keys (tableWrapperWidth (store (run lineWidthOf ops (initial h0))))) /\
              (leftGap (store (run lineWidthOf ops (initial h0))) <> [] ->
               viewWidth (store (run lineWidthOf ops (initial h0))) <> None)).
  { apply (@run_invariant _ lineWidthOf
             (fun s => NoDup (Rec.keys (tableWrapperWidth s)) /\
                       (leftGap s <> [] -> viewWidth s <> None))
             (fun _ => True)).
    - intros op c _. apply exec_keeps_shape.
    - apply all_ops_pass.
    - split; simpl; [apply NoDup_nil | intro N; exfalso; apply N; reflexivity]. }
  destruct S as [S1 S2].
  split; [exact S1 |]. split; [exact W1 |]. split; [| exact S2].
  intros tableId H. apply W2. apply RecFacts.get_In. exact H.
Qed.

(** X2.  Nothing is ever removed or reordered: along any session, from any
    configuration, the keys of [tableWrapperWidth] and of [leftGap] keep
    their order and new ones are added at the end, and a view width once
    set stays set. *)
Theorem session_keys_only_grow (ops : list (Op Host)) (c : Config) :
  let c' := run lineWidthOf ops c in
  (exists more,
      Rec.keys (tableWrapperWidth (store c')) = Rec.keys (tableWrapperWidth (store c)) ++ more) /\
  (exists more,
      Rec.keys (leftGap (store c')) = Rec.keys (leftGap (store c)) ++ more) /\
  (viewWidth (store c) <> None -> viewWidth (store c') <> None).
Proof.
  intro c'. subst c'.
  set (P := fun s : TableMap =>
              (exists more, Rec.keys (tableWrapperWidth s)
                            = Rec.keys (tableWrapperWidth (store c)) ++ more) /\
              (exists more, Rec.keys (leftGap s) = Rec.keys (leftGap (store c)) ++ more) /\
              (viewWidth (store c) <> None -> viewWidth s <> None)).
  assert (G : forall tableId, stableUnderLeftGap lineWidthOf P tableId).
  { intros tableId s w V L h [H1 [[m H2] H3]] _ _ _. split; [exact H1 |]. split; [| exact H3].
    simpl. destruct (keys_set_grows tableId (newLeftGap w L V) (leftGap s)) as [m' E].
    exists (m ++ m'). rewrite E, H2. symmetry. apply app_assoc. }
  apply (@run_invariant _ lineWidthOf P (fun _ => True)).
  - intros op c1 _. destruct op as [tableId width | width | event callback | h]; simpl.
    + apply (@preserves_setTableWrapperWidth _ lineWidthOf P).
      * intros s [[m H1] [H2 H3]]. split; [| split; [exact H2 | exact H3]].
        simpl. destruct (keys_set_grows tableId width (tableWrapperWidth s)) as [m' E].
        exists (m ++ m'). rewrite E, H1. symmetry. apply app_assoc.
      * apply G.
    + apply (@preserves_setViewWidth _ lineWidthOf P).
      * intros s [H1 [H2 H3]]. split; [exact H1 |]. split; [exact H2 |]. simpl. discriminate.
      * exact G.
    + destruct (addChangeEventListener_data event callback (store c1)) as [E1 [E2 E3]].
      unfold P. rewrite E1, E2, E3. auto.
    + auto.
  - apply all_ops_pass.
  - split; [| split].
    + exists []. symmetry. apply app_nil_r.
    + exists []. symmetry. apply app_nil_r.
    + auto.
Qed.

(** *** The errors the setters can end with *)

Lemma calcLeftGap_errors tableId (c : Config) e :
  Rec.get tableId (tableWrapperWidth (store c)) <> None ->
  fst (calcLeftGap lineWidthOf tableId c) = Abrupt e ->
  (viewWidth (store c) = None /\ e = ViewWidthNotInitialized) \/ lineOrListener e.
Proof.
  intros Hw E.
  destruct (Rec.get tableId (tableWrapperWidth (store c))) as [w |] eqn:Ew; [| congruence].
  destruct (viewWidth (store c)) as [V |] eqn:EV.
  - right. destruct (lineWidthOf (host c)) as [L |] eqn:EL.
    + rewrite (calcLeftGap_defined _ _ _ Ew EV EL) in E.
      right. exact (notify_completion _ _ _ E).
    + unfold calcLeftGap in E. rewrite Ew, EV, EL in E. injection E as <-. left. reflexivity.
  - left. unfold calcLeftGap in E. rewrite Ew, EV in E. injection E as <-. auto.
Qed.

Lemma recompute_errors (ks : list TableId) :
  forall (c : Config) e,
    (forall k, In k ks -> Rec.get k (tableWrapperWidth (store c)) <> None) ->
    viewWidth (store c) <> None ->
    fst (forOf ks (calcLeftGap lineWidthOf) c) = Abrupt e ->
    lineOrListener e.
Proof.
  induction ks as [| k ks IH]; intros c e Hw HV E; simpl in E; [discriminate |].
  unfold andThen in E.
  destruct (calcLeftGap lineWidthOf k c) as [[| e1] c1] eqn:Ec.
  - assert (F : tableWrapperWidth (store c1) = tableWrapperWidth (store c) /\
                viewWidth (store c1) = viewWidth (store c)).
    { change c1 with (snd (Normal, c1)). rewrite <- Ec.
      apply (@preserves_calcLeftGap _ lineWidthOf
               (fun s => tableWrapperWidth s = tableWrapperWidth (store c) /\
                         viewWidth s = viewWidth (store c))); auto. }
    destruct F as [F1 F2]. apply (IH c1 e); [| congruence | exact E].
    intros k' Hk'. rewrite F1. apply Hw. right. exact Hk'.
  - simpl in E. injection E as <-.
    destruct (@calcLeftGap_errors k c e1 (Hw k (or_introl eq_refl))) as [[N _] | H].
    + rewrite Ec. reflexivity.
    + contradiction.
    + exact H.
Qed.

(** X3.  Through the two setters the guard on the wrapper width never
    fires.  [setTableWrapperWidth] throws only for a view width not yet
    set, a line width the host does not show, or a listener that threw;
    in every state a session can reach, [setViewWidth] throws only for a
    line width the host does not show or a listener that threw. *)
Theorem setters_error_kinds (tableId : TableId) (width : number) (c : Config)
        (ops : list (Op Host)) (h0 : Host) :
  (forall e, fst (setTableWrapperWidth lineWidthOf tableId width c) = Abrupt e ->
             e = ViewWidthNotInitialized \/ lineOrListener e) /\
  (forall e, fst (setViewWidth lineWidthOf width (run lineWidthOf ops (initial h0))) = Abrupt e ->
             lineOrListener e).
Proof.
  split.
  - intros e E.
    destruct (strictNe (Rec.get tableId (tableWrapperWidth (store c))) width) eqn:Ne.
    + apply strictNe_true in Ne. rewrite setTableWrapperWidth_changed in E by exact Ne.
      unfold andThen in E.
      destruct (notify_frame KTableWrapperWidth (tableId, width) (widthStored tableId width c))
        as [F _].
      destruct (notify KTableWrapperWidth (tableId, width) (widthStored tableId width c))
        as [[| e1] c1] eqn:En.
      * simpl in F. destruct (@calcLeftGap_errors tableId c1 e) as [[_ ->] | H]; auto.
        rewrite F. simpl. rewrite RecFacts.get_set_same. discriminate.
      * simpl in E. injection E as <-. right. right.
        apply (@notify_completion _ KTableWrapperWidth (tableId, width)
                                  (widthStored tableId width c)).
        rewrite En. reflexivity.
    + apply strictNe_false in Ne. rewrite setTableWrapperWidth_unchanged in E by exact Ne.
      discriminate E.
  - intros e E.
    destruct (reachable_wellFormed lineWidthOf ops h0) as [_ W].
    remember (run lineWidthOf ops (initial h0)) as c0 eqn:Ec0. clear Ec0.
    unfold setViewWidth, andThen, modify in E.
    match type of E with context [notify ?ev ?a ?c2] =>
      destruct (notify_frame ev a c2) as [F _];
      destruct (notify ev a c2) as [[| e1] c1] eqn:En
    end.
    + simpl in F. apply (@recompute_errors (Rec.keys (leftGap (store c1))) c1 e).
      * intros k Hk. rewrite F in *. simpl in *. apply W. exact Hk.
      * rewrite F. simpl. discriminate.
      * exact E.
    + simpl in E. injection E as <-. right.
      match type of En with notify ?ev ?a ?c2 = _ =>
        apply (@notify_completion _ ev a c2)
      end.
      rewrite En. reflexivity.
Qed.

(** *** The store and the events published agree *)

Lemma lastOf_snoc pick evs ev :
  lastOf pick (evs ++ [ev]) = match pick ev with Some v => Some v | None => lastOf pick evs end.
Proof. unfold lastOf. rewrite fold_left_app. reflexivity. Qed.

Lemma agrees_viewWidth (s : TableMap) evs width :
  agreesWithEvents s evs ->
  agreesWithEvents (with_viewWidth width s) (evs ++ [ViewWidthChanged width]).
Proof.
  intros [H1 H2]. split.
  - rewrite lastOf_snoc. reflexivity.
  - intro k. rewrite !lastOf_snoc. simpl. apply H2.
Qed.

Lemma agrees_tableWrapperWidth (s : TableMap) evs tableId width :
  agreesWithEvents s evs ->
  agreesWithEvents (with_tableWrapperWidth tableId width s)
                   (evs ++ [TableWrapperWidthChanged tableId width]).
Proof.
  intros [H1 H2]. split.
  - rewrite lastOf_snoc. exact H1.
  - intro k. rewrite !lastOf_snoc. simpl. destruct (H2 k) as [H3 H4]. split; [| exact H4].
    destruct (String.eqb k tableId) eqn:E.
    + apply String.eqb_eq in E. subst k. apply RecFacts.get_set_same.
    + apply String.eqb_neq in E. rewrite RecFacts.get_set_other by congruence. exact H3.
Qed.

Lemma agrees_leftGap (s : TableMap) evs tableId gap :
  agreesWithEvents s evs ->
  agreesWithEvents (with_leftGap tableId gap s) (evs ++ [LeftGapChanged tableId gap]).
Proof.
  intros [H1 H2]. split.
  - rewrite lastOf_snoc. exact H1.
  - intro k. rewrite !lastOf_snoc. simpl. destruct (H2 k) as [H3 H4]. split; [exact H3 |].
    destruct (String.eqb k tableId) eqn:E.
    + apply String.eqb_eq in E. subst k. apply RecFacts.get_set_same.
    + apply String.eqb_neq in E. rewrite RecFacts.get_set_other by congruence. exact H4.
Qed.

Lemma keeps_andThen I (a b : Action Host) : keeps I a -> keeps I b -> keeps I (andThen a b).
Proof.
  intros Ha Hb c H. unfold andThen. specialize (Ha c H).
  destruct (a c) as [[| e] c1]; simpl in *; [apply Hb |]; exact Ha.
Qed.

Lemma keeps_forOf I (A : Type) (body : A -> Action Host) xs :
  (forall x, keeps I (body x)) -> keeps I (forOf xs body).
Proof.
  intro Hb. induction xs as [| x xs IH]; simpl.
  - intros c H. exact H.
  - apply keeps_andThen; [apply Hb | exact IH].
Qed.

Lemma keeps_calcLeftGap tableId : keeps (@agreesWithEvents Host) (calcLeftGap lineWidthOf tableId).
Proof.
  intros c H.
  destruct (calcLeftGap_cases lineWidthOf tableId c)
    as [[e [E _]] | [w [V [L [_ [_ [_ [E1 E2]]]]]]]].
  - rewrite E. exact H.
  - rewrite E1, E2. apply agrees_leftGap. exact H.
Qed.

Lemma keeps_setTableWrapperWidth tableId width :
  keeps (@agreesWithEvents Host) (setTableWrapperWidth lineWidthOf tableId width).
Proof.
  intros c H.
  destruct (strictNe (Rec.get tableId (tableWrapperWidth (store c))) width) eqn:Ne.
  - apply strictNe_true in Ne. rewrite setTableWrapperWidth_changed by exact Ne.
    unfold andThen.
    destruct (notify_frame KTableWrapperWidth (tableId, width) (widthStored tableId width c))
      as [F1 F2].
    assert (A : agreesWithEvents
                  (store (snd (notify KTableWrapperWidth (tableId, width)
                                      (widthStored tableId width c))))
                  (emitted (snd (notify KTableWrapperWidth (tableId, width)
                                        (widthStored tableId width c))))).
    { rewrite F1, F2. simpl. apply agrees_tableWrapperWidth. exact H. }
    destruct (notify _ _ _) as [[| e] c1]; simpl in *.
    + apply keeps_calcLeftGap. exact A.
    + exact A.
  - apply strictNe_false in Ne. rewrite setTableWrapperWidth_unchanged by exact Ne. exact H.
Qed.

Lemma keeps_setViewWidth width : keeps (@agreesWithEvents Host) (setViewWidth lineWidthOf width).
Proof.
  intros c H. unfold setViewWidth, andThen, modify.
  match goal with |- context [notify ?ev ?a ?c2] =>
    destruct (notify_frame ev a c2) as [F1 F2];
    assert (A : agreesWithEvents (store (snd (notify ev a c2))) (emitted (snd (notify ev a c2))));
    [rewrite F1, F2; simpl; apply agrees_viewWidth; exact H |];
    destruct (notify ev a c2) as [[| e] c1]
  end; simpl in *.
  - apply (@keeps_forOf (@agreesWithEvents Host)); [intro k; apply keeps_calcLeftGap | exact A].
  - exact A.
Qed.

(** X5.  In every state a session can reach, the store holds what the
    events published say: the view width is the one of the last
    [viewWidth] event, and for every table the wrapper width and the left
    gap are those of the last [tableWrapperWidth] and [leftGap] event about
    it (none stored when there was no such event).  This holds whichever
    calls threw. *)
Theorem session_store_agrees_with_events (ops : list (Op Host)) (h0 : Host) :
  agreesWithEvents (store (run lineWidthOf ops (initial h0)))
                   (emitted (run lineWidthOf ops (initial h0))).
Proof.
  assert (G : forall ops (c : Config),
             agreesWithEvents (store c) (emitted c) ->
             agreesWithEvents (store (run lineWidthOf ops c)) (emitted (run lineWidthOf ops c))).
  { clear. intro ops. induction ops as [| op ops IH]; intros c H; simpl; [exact H |].
    apply IH. destruct op as [tableId width | width | event callback | h]; simpl.
    - apply keeps_setTableWrapperWidth. exact H.
    - apply keeps_setViewWidth. exact H.
    - destruct (addChangeEventListener_data event callback (store c)) as [E1 [E2 E3]].
      unfold agreesWithEvents. rewrite E1, E2, E3. exact H.
    - exact H. }
  apply G. split; [reflexivity |]. intro k. split; reflexivity.
Qed.

(** *** Sessions whose listeners return, in a host whose line does not change *)

Lemma tableMap_ext (s1 s2 : TableMap) :
  viewWidth s1 = viewWidth s2 ->
  tableWrapperWidth s1 = tableWrapperWidth s2 ->
  leftGap s1 = leftGap s2 ->
  changeEventListeners s1 = changeEventListeners s2 ->
  s1 = s2.
Proof. destruct s1, s2; simpl; intros; subst; reflexivity. Qed.

Lemma calm_same_listeners event (s s' : TableMap) :
  changeEventListeners s' = changeEventListeners s -> calm event s -> calm event s'.
Proof.
  intros E H callback args Hin. apply H.
  destruct event; simpl in *; rewrite E in Hin; exact Hin.
Qed.

Lemma same_keys_same_values (R : TableId -> number -> Prop) (r1 : Rec.t) :
  forall r2 : Rec.t,
    Rec.keys r1 = Rec.keys r2 ->
    (forall k g, In (k, g) r1 -> R k g) ->
    (forall k g, In (k, g) r2 -> R k g) ->
    (forall k g g', R k g -> R k g' -> g = g') ->
    r1 = r2.
Proof.
  induction r1 as [| [k1 g1] r1 IH]; intros [| [k2 g2] r2] K H1 H2 F; simpl in K;
    try discriminate K; [reflexivity |].
  injection K as -> K.
  rewrite (F k2 g1 g2 (H1 _ _ (or_introl eq_refl)) (H2 _ _ (or_introl eq_refl))).
  f_equal. apply IH; auto.
  - intros k g I. apply H1. right. exact I.
  - intros k g I. apply H2. right. exact I.
Qed.

(** The store [setTableWrapperWidth] leaves when its width is new, no
    listener throws and the line is [L] wide. *)
Lemma setTableWrapperWidth_store_calm tableId width (c : Config) (L : number) :
  allCalm (store c) ->
  (forall h, lineWidthOf h = Some L) ->
  Rec.get tableId (tableWrapperWidth (store c)) <> Some width ->
  store (snd (setTableWrapperWidth lineWidthOf tableId width c))
  = match viewWidth (store c) with
    | None => with_tableWrapperWidth tableId width (store c)
    | Some V => with_leftGap tableId (newLeftGap width L V)
                             (with_tableWrapperWidth tableId width (store c))
    end.
Proof.
  intros Hcalm Hline Ne. rewrite setTableWrapperWidth_changed by exact Ne.
  unfold andThen.
  rewrite notify_returns
    by (intros callback Hin; apply (Hcalm KTableWrapperWidth); exact Hin).
  match goal with |- context [calcLeftGap _ _ ?c1] => set (c1' := c1) end.
  assert (Ew : Rec.get tableId (tableWrapperWidth (store c1')) = Some width)
    by (subst c1'; simpl; apply RecFacts.get_set_same).
  destruct (viewWidth (store c)) as [V |] eqn:EV.
  - assert (EV' : viewWidth (store c1') = Some V) by (subst c1'; simpl; exact EV).
    destruct (calcLeftGap_store lineWidthOf _ _ Ew EV' (Hline (host c1'))) as [E _].
    rewrite E. reflexivity.
  - unfold calcLeftGap. rewrite Ew. subst c1'. simpl. rewrite EV. reflexivity.
Qed.

(** The store [setViewWidth] leaves when no listener throws and the line
    is [L] wide: every left gap is rewritten by the rule. *)
Lemma setViewWidth_store_calm width (c : Config) (L : number) :
  wellFormed (store c) ->
  allCalm (store c) ->
  (forall h, lineWidthOf h = Some L) ->
  exists gaps,
    fst (setViewWidth lineWidthOf width c) = Normal /\
    store (snd (setViewWidth lineWidthOf width c))
    = mkTableMap (Some width) (tableWrapperWidth (store c)) gaps (changeEventListeners (store c)) /\
    Rec.keys gaps = Rec.keys (leftGap (store c)) /\
    (forall k g, In (k, g) gaps ->
                 exists w, Rec.get k (tableWrapperWidth (store c)) = Some w /\
                           g = newLeftGap w L width).
Proof.
  intros [Hnd Hsub] Hcalm Hline.
  assert (Hline' : forall h, lineWidthOf h <> None) by (intro h; rewrite Hline; discriminate).
  unfold setViewWidth, andThen, modify.
  rewrite notify_returns by (intros callback Hin; apply (Hcalm KViewWidth); exact Hin).
  match goal with |- context [forOf _ _ ?c1] =>
    destruct (@recompute_loop _ lineWidthOf (leftGap (store c)) [] c1 width eq_refl Hnd eq_refl
                              Hsub Hline' (Hcalm KLeftGap))
      as [c2 [suf' [E [G [K [V' [W [Ls [_ Vals]]]]]]]]]
  end.
  simpl in *. rewrite E. simpl. exists suf'.
  split; [reflexivity |]. split; [| split; [exact K |]].
  - apply tableMap_ext; simpl; auto.
  - intros k g I. destruct (Vals k g I) as [w [L' [h [E1 [E2 E3]]]]].
    rewrite Hline in E2. injection E2 as <-. eauto.
Qed.

Lemma exec_keeps_upToDate (L : number) (op : Op Host) (c : Config) :
  (forall h, lineWidthOf h = Some L) ->
  registersCalm op ->
  wellFormed (store c) /\ allCalm (store c) /\ leftGapsUpToDate L (store c) ->
  wellFormed (store (exec lineWidthOf op c)) /\
  allCalm (store (exec lineWidthOf op c)) /\
  leftGapsUpToDate L (store (exec lineWidthOf op c)).
Proof.
  intros Hline Hop [WF [Hcalm Hup]].
  split; [apply exec_keeps_wellFormed; exact WF |].
  destruct op as [tableId width | width | event callback | h]; simpl in *.
  - destruct (strictNe (Rec.get tableId (tableWrapperWidth (store c))) width) eqn:Ne.
    + apply strictNe_true in Ne.
      rewrite (@setTableWrapperWidth_store_calm tableId width c L Hcalm Hline Ne).
      destruct (viewWidth (store c)) as [V |] eqn:EV.
      * split; [intro event; apply (@calm_same_listeners event (store c)); auto |].
        intros k g. simpl. intro E.
        destruct (RecFacts.get_set_cases _ _ _ _ E) as [[-> ->] | [N E']].
        -- exists width, V. rewrite RecFacts.get_set_same. auto.
        -- destruct (Hup k g E') as [w [V' [E1 [E2 E3]]]].
           exists w, V'. rewrite RecFacts.get_set_other by congruence. auto.
      * split; [intro event; apply (@calm_same_listeners event (store c)); auto |].
        intros k g. simpl. intro E.
        destruct (Hup k g E) as [w [V' [_ [E2 _]]]]. congruence.
    + apply strictNe_false in Ne. rewrite setTableWrapperWidth_unchanged by exact Ne. auto.
  - destruct (@setViewWidth_store_calm width c L WF Hcalm Hline) as [gaps [_ [E [_ Vals]]]].
    rewrite E. split; [intro event; apply (@calm_same_listeners event (store c)); auto |].
    intros k g. simpl. intro I. apply RecFacts.get_Some_In in I.
    destruct (Vals k g I) as [w [E1 E2]]. exists w, width. auto.
  - split.
    + intros event' cb args Hin.
      destruct event, event'; simpl in *;
        try (apply in_app_or in Hin; destruct Hin as [Hin | [<- | []]]);
        try (apply (Hcalm KTableWrapperWidth); exact Hin);
        try (apply (Hcalm KLeftGap); exact Hin);
        try (apply (Hcalm KViewWidth); exact Hin);
        apply Hop.
    + destruct (addChangeEventListener_data event callback (store c)) as [E1 [E2 E3]].
      unfold leftGapsUpToDate. rewrite E1, E2, E3. exact Hup.
  - auto.
Qed.

Lemma session_upToDate (L : number) (ops : list (Op Host)) (h0 : Host) :
  (forall h, lineWidthOf h = Some L) ->
  Forall (@registersCalm Host) ops ->
  wellFormed (store (run lineWidthOf ops (initial h0))) /\
  allCalm (store (run lineWidthOf ops (initial h0))) /\
  leftGapsUpToDate L (store (run lineWidthOf ops (initial h0))).
Proof.
  intros Hline Hops.
  apply (@run_invariant _ lineWidthOf
           (fun s => wellFormed s /\ allCalm s /\ leftGapsUpToDate L s)
           (@registersCalm Host)
           (fun op c Hop H => exec_keeps_upToDate op c Hline Hop H)
           ops (initial h0) Hops).
  split; [| split].
  - split; simpl; [constructor | intros k []].
  - intros event callback args Hin. destruct event; destruct Hin.
  - intros k g. simpl. discriminate.
Qed.

(** X4.  Derived-value consistency: along every session in which the
    listeners registered return and the line is [L] wide throughout, every
    left gap stored is the three-way rule of the wrapper width and the view
    width stored now: no left gap is ever stale. *)
Theorem session_leftGaps_upToDate (L : number) (ops : list (Op Host)) (h0 : Host) :
  (forall h, lineWidthOf h = Some L) ->
  Forall (@registersCalm Host) ops ->
  leftGapsUpToDate L (store (run lineWidthOf ops (initial h0))).
Proof.
  intros Hline Hops. apply (session_upToDate h0 Hline Hops).
Qed.

(** X6.  Under the same conditions [setViewWidth] with the same width a
    second time ends normally and leaves the store as the first call left
    it: the store is a fixed point of the recomputation. *)
Theorem setViewWidth_twice_same_store (L : number) (ops : list (Op Host)) (h0 : Host)
        (width : number) :
  (forall h, lineWidthOf h = Some L) ->
  Forall (@registersCalm Host) ops ->
  let c1 := snd (setViewWidth lineWidthOf width (run lineWidthOf ops (initial h0))) in
  fst (setViewWidth lineWidthOf width c1) = Normal /\
  store (snd (setViewWidth lineWidthOf width c1)) = store c1.
Proof.
  intros Hline Hops c1.
  destruct (session_upToDate h0 Hline Hops) as [WF [Hcalm _]].
  remember (run lineWidthOf ops (initial h0)) as c eqn:Ec. clear Ec.
  destruct (@setViewWidth_store_calm width c L WF Hcalm Hline) as [gaps1 [_ [E1 [K1 V1]]]].
  fold c1 in E1.
  assert (WF1 : wellFormed (store c1))
    by (apply (exec_keeps_wellFormed lineWidthOf (OpSetViewWidth width) c WF)).
  assert (Hcalm1 : allCalm (store c1))
    by (intro event; apply (@calm_same_listeners event (store c)); [rewrite E1 |]; auto).
  destruct (@setViewWidth_store_calm width c1 L WF1 Hcalm1 Hline) as [gaps2 [N [E2 [K2 V2]]]].
  split; [exact N |].
  rewrite E2. rewrite E1 in *. simpl in *. f_equal.
  apply (@same_keys_same_values
           (fun k g => exists w, Rec.get k (tableWrapperWidth (store c)) = Some w /\
                                 g = newLeftGap w L width)).
  - exact K2.
  - exact V2.
  - exact V1.
  - intros k g g' [w [A1 A2]] [w' [B1 B2]]. congruence.
Qed.

(** X7.  When the host shows no line width once the [viewWidth] listeners
    have returned, [setViewWidth] still stores the width and publishes its
    event, recomputes nothing, and throws exactly when some left gap is
    stored: with no left gap yet it ends normally. *)
Theorem setViewWidth_without_line (ops : list (Op Host)) (h0 : Host) (width : number) :
  let c := run lineWidthOf ops (initial h0) in
  let h1 := hostAfterAll (fun callback => applyCallback KViewWidth callback width)
                         (listenersOf KViewWidth (store c)) (host c) in
  calm KViewWidth (store c) ->
  lineWidthOf h1 = None ->
  setViewWidth lineWidthOf width c
  = (match leftGap (store c) with
     | [] => Normal
     | _ :: _ => Abrupt LineWidthNotInitialized
     end,
     mkConfig (with_viewWidth width (store c)) h1 (emitted c ++ [ViewWidthChanged width])).
Proof.
  intros c h1 Hcalm Hline.
  destruct (reachable_wellFormed lineWidthOf ops h0) as [_ W]. fold c in W.
  subst h1. remember c as c0 eqn:Ec0. clear Ec0 c.
  unfold setViewWidth, andThen, modify.
  rewrite notify_returns by (intros callback Hin; apply Hcalm; exact Hin).
  simpl in *.
  destruct (leftGap (store c0)) as [| [k v] r] eqn:EG; simpl; [reflexivity |].
  unfold andThen, calcLeftGap. simpl.
  destruct (Rec.get k (tableWrapperWidth (store c0))) as [w |] eqn:Ew.
  - rewrite Hline. reflexivity.
  - exfalso. apply (W k); [left; reflexivity | exact Ew].
Qed.

(** *** How far a recomputation of all left gaps gets *)

Lemma recompute_prefix (ks : list TableId) :
  forall c : Config,
  exists n evs,
    emitted (snd (forOf ks (calcLeftGap lineWidthOf) c)) = emitted c ++ evs /\
    map leftGapEventTable evs = map Some (firstn n ks) /\
    (forall k, ~ In k (firstn n ks) ->
               Rec.get k (leftGap (store (snd (forOf ks (calcLeftGap lineWidthOf) c))))
               = Rec.get k (leftGap (store c))) /\
    (fst (forOf ks (calcLeftGap lineWidthOf) c) = Normal -> n = length ks).
Proof.
  induction ks as [| k ks IH]; intro c; simpl.
  - exists 0%nat, []. simpl. rewrite app_nil_r. auto.
  - unfold andThen.
    destruct (calcLeftGap_cases lineWidthOf k c)
      as [[e [E _]] | [w [V [L [_ [_ [_ [E1 E2]]]]]]]].
    + rewrite E. exists 0%nat, []. simpl. rewrite app_nil_r.
      repeat split; auto. discriminate.
    + destruct (calcLeftGap lineWidthOf k c) as [[| e] c1]; simpl in E1, E2.
      * destruct (IH c1) as [n [evs [A1 [A2 [A3 A4]]]]].
        exists (S n), (LeftGapChanged k (newLeftGap w L V) :: evs). simpl.
        split; [rewrite A1, E2, <- app_assoc; reflexivity |].
        split; [rewrite A2; reflexivity |].
        split; [| intro N; rewrite (A4 N); reflexivity].
        intros k' Hk'. rewrite A3 by (intro I; apply Hk'; right; exact I).
        rewrite E1. simpl. apply RecFacts.get_set_other.
        intro X. apply Hk'. left. exact X.
      * exists 1%nat, [LeftGapChanged k (newLeftGap w L V)]. simpl.
        split; [exact E2 |]. split; [reflexivity |]. split; [| discriminate].
        intros k' Hk'. rewrite E1. simpl. apply RecFacts.get_set_other.
        intro X. apply Hk'. left. exact X.
Qed.

(** X8.  However [setViewWidth] ends, the [leftGap] events it published
    after its [viewWidth] event are about the first [n] keys of [leftGap],
    in key order, one each; the left gaps of all other tables are as they
    were; and [n] is the number of keys when the call ends normally. *)
Theorem setViewWidth_progress_is_a_prefix (width : number) (c : Config) :
  let r := setViewWidth lineWidthOf width c in
  exists n evs,
    emitted (snd r) = emitted c ++ ViewWidthChanged width :: evs /\
    map leftGapEventTable evs = map Some (firstn n (Rec.keys (leftGap (store c)))) /\
    (forall k, ~ In k (firstn n (Rec.keys (leftGap (store c)))) ->
               Rec.get k (leftGap (store (snd r))) = Rec.get k (leftGap (store c))) /\
    (fst r = Normal -> n = length (Rec.keys (leftGap (store c)))).
Proof.
  intro r. subst r. unfold setViewWidth, andThen, modify.
  match goal with |- context [notify ?ev ?a ?c2] =>
    destruct (notify_frame ev a c2) as [F1 F2]; destruct (notify ev a c2) as [[| e1] c1]
  end; simpl in F1, F2.
  - destruct (recompute_prefix (Rec.keys (leftGap (store c1))) c1) as [n [evs [A1 [A2 [A3 A4]]]]].
    rewrite F1 in *. simpl in *.
    exists n, evs. split; [rewrite A1, F2, <- app_assoc; reflexivity |].
    split; [exact A2 |]. split; [exact A3 | exact A4].
  - exists 0%nat, []. simpl. rewrite F1, F2. simpl. repeat split; auto. discriminate.
Qed.

End FurtherStore.

(** *** The three-way rule as a clamp *)

Lemma half_diff_le (x y z : number) : x <= y -> (x - z) / px 2 <= (y - z) / px 2.
Proof. intro H. to_Q. lra. Qed.

Lemma newLeftGap_upper (w L V : number) : L <= V -> newLeftGap w L V <= (V - L) / px 2.
Proof.
  intro H. unfold newLeftGap.
  destruct (ltb w L) eqn:E1; [apply half_diff_nonneg; exact H |].
  destruct (ltb L w) eqn:E2; destruct (ltb w V) eqn:E3; simpl; try apply Qcle_refl.
  apply half_diff_le. apply Qclt_le_weak. apply ltb_lt. exact E3.
Qed.

(** X9.  With the line no wider than the view, the left gap the rule gives
    lies between 0 and half the room the view leaves beside the line,
    whatever the width of the table. *)
Theorem newLeftGap_within_bounds (w L V : number) :
  L <= V ->
  0 <= newLeftGap w L V /\ newLeftGap w L V <= (V - L) / px 2.
Proof.
  intro H. split; [apply newLeftGap_nonneg | apply newLeftGap_upper]; exact H.
Qed.

(** X10.  With the line no wider than the view, a wider table never gets a
    smaller left gap, as long as neither table is exactly as wide as the
    line (where the rule jumps to the clamped value). *)
Theorem newLeftGap_monotone (w1 w2 L V : number) :
  L <= V -> w1 <= w2 -> w1 <> L -> w2 <> L ->
  newLeftGap w1 L V <= newLeftGap w2 L V.
Proof.
  intros HLV H12 N1 N2.
  destruct (ltb w1 L) eqn:E1.
  - unfold newLeftGap at 1. rewrite E1. apply newLeftGap_nonneg. exact HLV.
  - apply ltb_ge in E1.
    assert (L1 : L < w1) by (destruct (Qcle_lt_or_eq _ _ E1); [assumption | congruence]).
    assert (L2 : L < w2) by (apply (Qclt_le_trans _ _ _ L1 H12)).
    destruct (Qclt_le_dec w2 V) as [B2 | B2].
    + assert (B1 : w1 < V) by (apply (Qcle_lt_trans _ _ _ H12 B2)).
      rewrite (newLeftGap_between L1 B1), (newLeftGap_between L2 B2).
      apply half_diff_le. exact H12.
    + rewrite (@newLeftGap_otherwise w2 L V).
      * apply newLeftGap_upper. exact HLV.
      * intro X. exact (Qclt_not_le _ _ L2 (Qclt_le_weak _ _ X)).
      * intros [_ X]. exact (Qclt_not_le _ _ X B2).
Qed.

(** *** What can go wrong when no listener throws *)

Section CalmErrors.

Variable Host : Type.
Variable lineWidthOf : Host -> option number.

Local Abbreviation Config := (Config Host).

Lemma calcLeftGap_errors_calm tableId (c : Config) e :
  Rec.get tableId (tableWrapperWidth (store c)) <> None ->
  calm KLeftGap (store c) ->
  fst (calcLeftGap lineWidthOf tableId c) = Abrupt e ->
  (viewWidth (store c) = None /\ e = ViewWidthNotInitialized) \/ e = LineWidthNotInitialized.
Proof.
  intros Hw Hcalm E.
  destruct (Rec.get tableId (tableWrapperWidth (store c))) as [w |] eqn:Ew; [| congruence].
  destruct (viewWidth (store c)) as [V |] eqn:EV.
  - right. destruct (lineWidthOf (host c)) as [L |] eqn:EL.
    + rewrite (calcLeftGap_defined _ _ _ Ew EV EL) in E.
      rewrite notify_returns in E by (intros callback Hin; apply Hcalm; exact Hin).
      discriminate E.
    + unfold calcLeftGap in E. rewrite Ew, EV, EL in E. injection E as <-. reflexivity.
  - left. unfold calcLeftGap in E. rewrite Ew, EV in E. injection E as <-. auto.
Qed.

Lemma setTableWrapperWidth_errors_calm tableId width (c : Config) e :
  allCalm (store c) ->
  fst (setTableWrapperWidth lineWidthOf tableId width c) = Abrupt e ->
  e = ViewWidthNotInitialized \/ e = LineWidthNotInitialized.
Proof.
  intros Hcalm E.
  destruct (strictNe (Rec.get tableId (tableWrapperWidth (store c))) width) eqn:Ne.
  - apply strictNe_true in Ne. rewrite setTableWrapperWidth_changed in E by exact Ne.
    unfold andThen in E.
    rewrite notify_returns in E
      by (intros callback Hin; apply (Hcalm KTableWrapperWidth); exact Hin).
    match type of E with fst (calcLeftGap _ _ ?c1) = _ =>
      destruct (@calcLeftGap_errors_calm tableId c1 e) as [[_ ->] | ->]; auto
    end.
    + simpl. rewrite RecFacts.get_set_same. discriminate.
    + exact (Hcalm KLeftGap).
  - apply strictNe_false in Ne. rewrite setTableWrapperWidth_unchanged in E by exact Ne.
    discriminate E.
Qed.

Lemma recompute_errors_calm (ks : list TableId) :
  forall (c : Config) e,
    (forall k, In k ks -> Rec.get k (tableWrapperWidth (store c)) <> None) ->
    viewWidth (store c) <> None ->
    calm KLeftGap (store c) ->
    fst (forOf ks (calcLeftGap lineWidthOf) c) = Abrupt e ->
    e = LineWidthNotInitialized.
Proof.
  induction ks as [| k ks IH]; intros c e Hw HV Hcalm E; simpl in E; [discriminate |].
  unfold andThen in E.
  destruct (calcLeftGap lineWidthOf k c) as [[| e1] c1] eqn:Ec.
  - assert (F : tableWrapperWidth (store c1) = tableWrapperWidth (store c) /\
                viewWidth (store c1) = viewWidth (store c) /\
                changeEventListeners (store c1) = changeEventListeners (store c)).
    { change c1 with (snd (Normal, c1)). rewrite <- Ec.
      apply (@preserves_calcLeftGap _ lineWidthOf
               (fun s => tableWrapperWidth s = tableWrapperWidth (store c) /\
                         viewWidth s = viewWidth (store c) /\
                         changeEventListeners s = changeEventListeners (store c))); auto. }
    destruct F as [F1 [F2 F3]]. apply (IH c1 e); [| congruence | | exact E].
    + intros k' Hk'. rewrite F1. apply Hw. right. exact Hk'.
    + apply (@calm_same_listeners _ KLeftGap (store c)); assumption.
  - simpl in E. injection E as <-.
    destruct (@calcLeftGap_errors_calm k c e1 (Hw k (or_introl eq_refl)) Hcalm) as [[N _] | H].
    + rewrite Ec. reflexivity.
    + contradiction.
    + exact H.
Qed.

Lemma setViewWidth_errors_calm width (c : Config) e :
  wellFormed (store c) ->
  allCalm (store c) ->
  fst (setViewWidth lineWidthOf width c) = Abrupt e ->
  e = LineWidthNotInitialized.
Proof.
  intros [_ W] Hcalm E. unfold setViewWidth, andThen, modify in E.
  rewrite notify_returns in E by (intros callback Hin; apply (Hcalm KViewWidth); exact Hin).
  match type of E with fst (forOf ?ks _ ?c1) = _ =>
    apply (@recompute_errors_calm ks c1 e)
  end; simpl; auto.
  - discriminate.
  - exact (Hcalm KLeftGap).
Qed.

End CalmErrors.

(** ** The plugin and its store *)

Section PluginFacts.

Variable Dom : Type.
Variable Element : Type.
Variable api : FullwidthTablePlugin.DomApi Dom Element.

Local Abbreviation line := (FullwidthTablePlugin.lineWidthOf api).
Local Abbreviation pluginListeners :=
  (mkListeners [FullwidthTablePlugin.onTableWrapperWidth api]
               [FullwidthTablePlugin.onLeftGap api]
               [FullwidthTablePlugin.onViewWidth api]).

(** With widgets that are HTML elements none of the three listeners of
    the plugin throws. *)
Lemma plugin_listeners_calm (s : TableMap Dom) :
  FullwidthTablePlugin.widgetsAreHTMLElements api ->
  changeEventListeners s = pluginListeners ->
  allCalm s.
Proof.
  intros Hhtml E event callback args Hin h.
  destruct event; simpl in Hin; rewrite E in Hin; simpl in Hin;
    destruct Hin as [<- | []]; simpl.
  - eexists. reflexivity.
  - unfold FullwidthTablePlugin.onLeftGap.
    destruct (FullwidthTablePlugin.queryTableWidget api (fst args) _) as [el |] eqn:Q.
    + rewrite (Hhtml _ _ _ Q). eexists. reflexivity.
    + eexists. reflexivity.
  - eexists. reflexivity.
Qed.

(** A property of the store that the two setters of the store keep is
    kept by every call of the plugin. *)
Lemma pluginExec_keeps (P : TableMap Dom -> Prop) :
  (forall tableId n, preserves P (setTableWrapperWidth line tableId (px (Z.of_N n)))) ->
  (forall width, preserves P (setViewWidth line width)) ->
  forall op c, P (store c) -> P (store (FullwidthTablePlugin.pluginExec api op c)).
Proof.
  intros HW HV op c H. destruct op as [el | el | dom]; simpl.
  - unfold FullwidthTablePlugin.setTableWrapperWidth.
    destruct (FullwidthTablePlugin.datasetTableId api el (host c)) as [tableId |]; [| exact H].
    destruct (String.eqb tableId ""); [exact H |].
    destruct (FullwidthTablePlugin.queryTableWrapper api el (host c)) as [wr |]; [| exact H].
    destruct (FullwidthTablePlugin.isHTMLElement api wr); [| exact H].
    specialize (HW tableId (FullwidthTablePlugin.clientWidth api wr (host c)) c H).
    destruct (setTableWrapperWidth _ _ _ c) as [[| e] c']; exact HW.
  - unfold FullwidthTablePlugin.storeViewSize.
    destruct (FullwidthTablePlugin.queryScroller api el (host c)) as [sc |]; [| exact H].
    destruct (FullwidthTablePlugin.isHTMLElement api sc); [| exact H].
    match goal with |- context [setViewWidth _ ?w ?c1] =>
      pose proof (HV w c1 H) as HV'; destruct (setViewWidth line w c1) as [[| e] c']
    end; exact HV'.
  - exact H.
Qed.

Lemma plugin_session_invariant (ops : list (FullwidthTablePlugin.PluginOp Dom Element)) (dom : Dom) :
  let s := store (FullwidthTablePlugin.pluginRun api ops (FullwidthTablePlugin.constructed api dom)) in
  wellFormed s /\ changeEventListeners s = pluginListeners /\ FullwidthTablePlugin.wholePixels s.
Proof.
  intro s. subst s. unfold FullwidthTablePlugin.pluginRun.
  set (P := fun s : TableMap Dom =>
              wellFormed s /\ changeEventListeners s = pluginListeners /\
              FullwidthTablePlugin.wholePixels s).
  assert (G : forall tableId, stableUnderLeftGap line P tableId).
  { intros tableId s w V L h [[H1 H2] [H3 H4]] Ew _ _. split; [split |]; simpl.
    - apply NoDup_keys_set. exact H1.
    - intros k Hk. destruct (In_keys_set _ _ _ _ Hk) as [-> | Hk']; [congruence | auto].
    - auto. }
  assert (Step : forall op c, P (store c) ->
                              P (store (FullwidthTablePlugin.pluginExec api op c))).
  { apply pluginExec_keeps.
    - intros tableId n. apply preserves_setTableWrapperWidth; [| apply G].
      intros s0 [[H1 H2] [H3 H4]]. split; [split |]; simpl.
      + exact H1.
      + intros k Hk. destruct (string_dec tableId k) as [<- | N].
        * rewrite RecFacts.get_set_same. discriminate.
        * rewrite (RecFacts.get_set_other _ _ N). auto.
      + split; [exact H3 |]. intros k w E.
        destruct (RecFacts.get_set_cases _ _ _ _ E) as [[_ ->] | [_ E']]; [eauto | eauto].
    - intro width. apply preserves_setViewWidth; [| exact G].
      intros s0 H. exact H. }
  assert (Run : forall ops0 c,
             P (store c) ->
             P (store (fold_left (fun c op => FullwidthTablePlugin.pluginExec api op c) ops0 c))).
  { intro ops0. induction ops0 as [| op ops0 IH]; intros c Hc; simpl; [exact Hc |].
    apply IH. apply Step. exact Hc. }
  apply Run. split; [split |]; simpl.
  - constructor.
  - intros k [].
  - split; [reflexivity |]. intros k w. simpl. discriminate.
Qed.

Lemma px_of_N_nonneg (n : N) : 0 <= px (Z.of_N n).
Proof. to_Q. unfold Qle, inject_Z. simpl. lia. Qed.

(** X11.  In every state the plugin can reach through its two methods,
    whichever calls threw: the listeners of its store are the three its
    constructor registered, one of each kind, and every wrapper width
    stored is a whole number of pixels, zero or more. *)
Theorem plugin_store_invariants (ops : list (FullwidthTablePlugin.PluginOp Dom Element))
        (dom : Dom) :
  let s := store (FullwidthTablePlugin.pluginRun api ops (FullwidthTablePlugin.constructed api dom)) in
  changeEventListeners s
  = mkListeners [FullwidthTablePlugin.onTableWrapperWidth api]
                [FullwidthTablePlugin.onLeftGap api]
                [FullwidthTablePlugin.onViewWidth api] /\
  (forall tableId w, Rec.get tableId (tableWrapperWidth s) = Some w ->
                     exists n : N, w = px (Z.of_N n) /\ 0 <= w).
Proof.
  intro s. destruct (plugin_session_invariant ops dom) as [_ [L W]]. fold s in L, W.
  split; [exact L |].
  intros tableId w E. destruct (W tableId w E) as [n ->]. exists n. split; [reflexivity |].
  apply px_of_N_nonneg.
Qed.

(** X12.  When every table widget the DOM finds is an HTML element, a call
    of the plugin in any state it can reach fails only in these ways:
    [setTableWrapperWidth] for a widget without table id (missing or
    empty) or without wrapper, for a view width not yet stored, or for a
    line width the DOM does not show; [storeViewSize] for a view without
    scroller or a line width the DOM does not show. *)
Theorem plugin_error_kinds (ops : list (FullwidthTablePlugin.PluginOp Dom Element)) (dom : Dom)
        (element : Element) :
  FullwidthTablePlugin.widgetsAreHTMLElements api ->
  let c := FullwidthTablePlugin.pluginRun api ops (FullwidthTablePlugin.constructed api dom) in
  (forall e, fst (FullwidthTablePlugin.setTableWrapperWidth api element c)
             = FullwidthTablePlugin.Failed e ->
             e = FullwidthTablePlugin.TableIdNotFound \/
             e = FullwidthTablePlugin.TableWrapperElementNotFound \/
             e = FullwidthTablePlugin.FromTableMap ViewWidthNotInitialized \/
             e = FullwidthTablePlugin.FromTableMap LineWidthNotInitialized) /\
  (forall e, fst (FullwidthTablePlugin.storeViewSize api element c)
             = FullwidthTablePlugin.Failed e ->
             e = FullwidthTablePlugin.ScrollerNotFound \/
             e = FullwidthTablePlugin.FromTableMap LineWidthNotInitialized).
Proof.
  intros Hhtml c.
  destruct (plugin_session_invariant ops dom) as [WF [Ls _]]. fold c in WF, Ls.
  assert (Hcalm : allCalm (store c)) by (apply plugin_listeners_calm; assumption).
  remember c as c0 eqn:Ec0. clear Ec0 c. split; intros e E.
  - unfold FullwidthTablePlugin.setTableWrapperWidth in E.
    destruct (FullwidthTablePlugin.datasetTableId api element (host c0)) as [tableId |];
      [| injection E as <-; auto].
    destruct (String.eqb tableId ""); [injection E as <-; auto |].
    destruct (FullwidthTablePlugin.queryTableWrapper api element (host c0)) as [wr |];
      [| injection E as <-; auto].
    destruct (FullwidthTablePlugin.isHTMLElement api wr); [| injection E as <-; auto].
    match type of E with context [setTableWrapperWidth _ ?i ?w c0] =>
      pose proof (@setTableWrapperWidth_errors_calm _ line i w c0) as X;
      destruct (setTableWrapperWidth line i w c0) as [[| e1] c1]
    end; simpl in E; [discriminate E |].
    injection E as <-. destruct (X e1 Hcalm eq_refl) as [-> | ->]; auto.
  - unfold FullwidthTablePlugin.storeViewSize in E.
    destruct (FullwidthTablePlugin.queryScroller api element (host c0)) as [sc |];
      [| injection E as <-; auto].
    destruct (FullwidthTablePlugin.isHTMLElement api sc); [| injection E as <-; auto].
    match type of E with context [setViewWidth _ ?w ?c1] =>
      pose proof (@setViewWidth_errors_calm _ line w c1) as X;
      destruct (setViewWidth line w c1) as [[| e1] c2]
    end; simpl in E; [discriminate E |].
    injection E as <-. right. rewrite (X e1 WF Hcalm eq_refl). reflexivity.
Qed.

(** *** The three notifications in the plugin's store *)

Lemma plugin_notify_tableWrapperWidth (s : TableMap Dom) (h : Dom) evs tableId width :
  changeEventListeners s = pluginListeners ->
  notify KTableWrapperWidth (tableId, width) (mkConfig s h evs)
  = (Normal,
     mkConfig s
              (FullwidthTablePlugin.consoleLog api
                 ("tableWrapperWidth of " ++ tableId ++ " updated: "
                  ++ FullwidthTablePlugin.numberToString api width)%string h)
              (evs ++ [TableWrapperWidthChanged tableId width])).
Proof.
  intro E. unfold notify, andThen, publish. cbn [store host emitted listenersOf].
  rewrite E. reflexivity.
Qed.

Lemma plugin_notify_viewWidth (s : TableMap Dom) (h : Dom) evs width :
  changeEventListeners s = pluginListeners ->
  notify KViewWidth width (mkConfig s h evs)
  = (Normal,
     mkConfig s
              (FullwidthTablePlugin.setBodyStyleProperty api
                 "--plugin-fullwidth-table-view-width"
                 (FullwidthTablePlugin.numberToString api width ++ "px")%string h)
              (evs ++ [ViewWidthChanged width])).
Proof.
  intro E. unfold notify, andThen, publish. cbn [store host emitted listenersOf].
  rewrite E. reflexivity.
Qed.

Lemma plugin_notify_leftGap (s : TableMap Dom) (h : Dom) evs tableId gap :
  changeEventListeners s = pluginListeners ->
  let dom1 :=
    FullwidthTablePlugin.consoleLog api
      ("leftGap of " ++ tableId ++ " updated: "
       ++ FullwidthTablePlugin.numberToString api gap)%string h in
  notify KLeftGap (tableId, gap) (mkConfig s h evs)
  = match FullwidthTablePlugin.queryTableWidget api tableId dom1 with
    | None => (Normal, mkConfig s dom1 (evs ++ [LeftGapChanged tableId gap]))
    | Some found =>
        if FullwidthTablePlugin.isHTMLElement api found then
          (Normal,
           mkConfig s
                    (FullwidthTablePlugin.setStyleProperty api found
                       "--plugin-fullwidth-table-left-gap"
                       (FullwidthTablePlugin.numberToString api gap ++ "px")%string dom1)
                    (evs ++ [LeftGapChanged tableId gap]))
        else
          (Abrupt (ListenerFailure
                     ("tableWidgetElement is not an HTMLElement: " ++ tableId)%string),
           mkConfig s dom1 (evs ++ [LeftGapChanged tableId gap]))
    end.
Proof.
  intros E dom1. subst dom1. unfold notify, andThen, publish.
  cbn [store host emitted listenersOf]. rewrite E.
  cbn [on_leftGap forOf]. unfold andThen, call.
  cbn [store host emitted applyCallback fst snd]. unfold FullwidthTablePlugin.onLeftGap.
  destruct (FullwidthTablePlugin.queryTableWidget api tableId _) as [found |]; [| reflexivity].
  destruct (FullwidthTablePlugin.isHTMLElement api found); reflexivity.
Qed.

(** X13.  While no left gap is stored (as when the plugin loads),
    [storeViewSize] of a view that has a scroller ends normally whether or
    not the DOM shows a line width: it stores and publishes the client
    width of the view minus the two paddings of the scroller, and sets the
    view-width variable of the body to that number followed by "px". *)
Theorem plugin_storeViewSize_before_any_gap
        (ops : list (FullwidthTablePlugin.PluginOp Dom Element)) (dom : Dom)
        (viewElement scroller : Element) :
  let c := FullwidthTablePlugin.pluginRun api ops (FullwidthTablePlugin.constructed api dom) in
  let dom1 := FullwidthTablePlugin.consoleLogElement api scroller (host c) in
  let contentWidth :=
    px (Z.of_N (FullwidthTablePlugin.clientWidth api viewElement (host c)))
    - (FullwidthTablePlugin.paddingLeft api scroller dom1
       + FullwidthTablePlugin.paddingRight api scroller dom1) in
  leftGap (store c) = [] ->
  FullwidthTablePlugin.queryScroller api viewElement (host c) = Some scroller ->
  FullwidthTablePlugin.isHTMLElement api scroller = true ->
  FullwidthTablePlugin.storeViewSize api viewElement c
  = (FullwidthTablePlugin.Done,
     mkConfig (with_viewWidth contentWidth (store c))
              (FullwidthTablePlugin.consoleDebug api
                 ("Detected view width: "
                  ++ FullwidthTablePlugin.numberToString api contentWidth)%string
                 (FullwidthTablePlugin.setBodyStyleProperty api
                    "--plugin-fullwidth-table-view-width"
                    (FullwidthTablePlugin.numberToString api contentWidth ++ "px")%string
                    dom1))
              (emitted c ++ [ViewWidthChanged contentWidth])).
Proof.
  intros c dom1 contentWidth EG Q H.
  destruct (plugin_session_invariant ops dom) as [_ [Ls _]]. fold c in Ls.
  subst dom1 contentWidth. remember c as c0 eqn:Ec0. clear Ec0 c.
  unfold FullwidthTablePlugin.storeViewSize. rewrite Q, H. cbv zeta.
  unfold setViewWidth, andThen at 1, modify. cbn [store host emitted].
  unfold andThen. rewrite plugin_notify_viewWidth by exact Ls.
  cbn [store]. unfold with_viewWidth at 1. cbn [leftGap]. rewrite EG.
  reflexivity.
Qed.

(** X14.  A table measured for the first time, or with a new width, in a
    state of the plugin where a view width [V] is stored and the DOM shows
    a line width [L]: the wrapper width goes into the store, the left gap
    of the three-way rule goes into the store, both events are published,
    and, when the DOM finds the widget of the table, the left-gap variable
    of that widget is set to the left gap followed by "px".  When the DOM
    finds no such widget the call ends normally all the same, and no style
    is set. *)
Theorem plugin_table_measured
        (ops : list (FullwidthTablePlugin.PluginOp Dom Element)) (dom : Dom)
        (tableWidgetElement tableWrapperElement : Element) (tableId : TableId) (V L : number) :
  let c := FullwidthTablePlugin.pluginRun api ops (FullwidthTablePlugin.constructed api dom) in
  let width := px (Z.of_N (FullwidthTablePlugin.clientWidth api tableWrapperElement (host c))) in
  let dom1 :=
    FullwidthTablePlugin.consoleLog api
      ("tableWrapperWidth of " ++ tableId ++ " updated: "
       ++ FullwidthTablePlugin.numberToString api width)%string (host c) in
  let left := newLeftGap width L V in
  let dom2 :=
    FullwidthTablePlugin.consoleLog api
      ("leftGap of " ++ tableId ++ " updated: "
       ++ FullwidthTablePlugin.numberToString api left)%string dom1 in
  let stored := with_leftGap tableId left (with_tableWrapperWidth tableId width (store c)) in
  let published :=
    emitted c ++ [TableWrapperWidthChanged tableId width; LeftGapChanged tableId left] in
  FullwidthTablePlugin.datasetTableId api tableWidgetElement (host c) = Some tableId ->
  tableId <> "" ->
  FullwidthTablePlugin.queryTableWrapper api tableWidgetElement (host c) = Some tableWrapperElement ->
  FullwidthTablePlugin.isHTMLElement api tableWrapperElement = true ->
  Rec.get tableId (tableWrapperWidth (store c)) <> Some width ->
  viewWidth (store c) = Some V ->
  FullwidthTablePlugin.lineWidthOf api dom1 = Some L ->
  (forall found,
      FullwidthTablePlugin.queryTableWidget api tableId dom2 = Some found ->
      FullwidthTablePlugin.isHTMLElement api found = true ->
      FullwidthTablePlugin.setTableWrapperWidth api tableWidgetElement c
      = (FullwidthTablePlugin.Done,
         mkConfig stored
                  (FullwidthTablePlugin.setStyleProperty api found
                     "--plugin-fullwidth-table-left-gap"
                     (FullwidthTablePlugin.numberToString api left ++ "px")%string dom2)
                  published)) /\
  (FullwidthTablePlugin.queryTableWidget api tableId dom2 = None ->
   FullwidthTablePlugin.setTableWrapperWidth api tableWidgetElement c
   = (FullwidthTablePlugin.Done, mkConfig stored dom2 published)).
Proof.
  intros c width dom1 left dom2 stored published Hid Hne Hwr Hel Hnew HV HL.
  destruct (plugin_session_invariant ops dom) as [_ [Ls _]]. fold c in Ls.
  remember c as c0 eqn:Ec0. clear Ec0 c.
  apply String.eqb_neq in Hne.
  assert (Run :
            FullwidthTablePlugin.setTableWrapperWidth api tableWidgetElement c0
            = FullwidthTablePlugin.fromTableMap
                (notify KLeftGap (tableId, left) (mkConfig stored dom1
                   (emitted c0 ++ [TableWrapperWidthChanged tableId width])))).
  { unfold FullwidthTablePlugin.setTableWrapperWidth. rewrite Hid, Hne, Hwr, Hel. cbv zeta.
    fold width. rewrite setTableWrapperWidth_changed by exact Hnew.
    unfold andThen, widthStored.
    rewrite plugin_notify_tableWrapperWidth by exact Ls. fold dom1.
    rewrite (@calcLeftGap_defined _ line tableId _ width V L);
      [reflexivity | apply RecFacts.get_set_same | exact HV | exact HL]. }
  rewrite Run.
  rewrite plugin_notify_leftGap by exact Ls. cbv zeta. fold dom2.
  split.
  - intros found Q H. rewrite Q, H. subst published. simpl. rewrite <- app_assoc. reflexivity.
  - intro Q. rewrite Q. subst published. simpl. rewrite <- app_assoc. reflexivity.
Qed.

End PluginFacts.

(** ** The further properties at concrete inputs *)

Lemma session_store_shape_witness :
  viewWidth (store (run fixedLine scenario (initial tt))) <> None.
Proof.
  pose proof (session_store_shape fixedLine scenario tt) as H.
  cbv zeta in H. destruct H as [_ [_ [_ H]]].
  apply H. intro E. vm_compute in E. discriminate E.
Defined.

Lemma session_keys_only_grow_witness :
  viewWidth (store (run fixedLine [OpSetTableWrapperWidth "t2" (px 900)] oneTable)) <> None.
Proof.
  pose proof (session_keys_only_grow fixedLine [OpSetTableWrapperWidth "t2" (px 900)] oneTable)
    as H.
  cbv zeta in H. destruct H as [_ [_ H]].
  apply H. simpl. discriminate.
Defined.

Lemma setters_error_kinds_witness :
  ViewWidthNotInitialized = ViewWidthNotInitialized \/ lineOrListener ViewWidthNotInitialized.
Proof.
  destruct (setters_error_kinds fixedLine "t1" (px 300) (initial tt) [] tt) as [H _].
  apply H. reflexivity.
Defined.

Lemma session_leftGaps_upToDate_witness :
  leftGapsUpToDate (px 400) (store (run fixedLine scenario (initial tt))).
Proof.
  apply session_leftGaps_upToDate.
  - intro h. reflexivity.
  - repeat constructor.
Defined.

Lemma setViewWidth_twice_same_store_witness :
  store (snd (setViewWidth fixedLine (px 1200)
                           (snd (setViewWidth fixedLine (px 1200)
                                              (run fixedLine scenario (initial tt))))))
  = store (snd (setViewWidth fixedLine (px 1200) (run fixedLine scenario (initial tt)))).
Proof.
  pose proof (@setViewWidth_twice_same_store unit fixedLine (px 400) scenario tt (px 1200)) as H.
  cbv zeta in H. apply H.
  - intro h. reflexivity.
  - repeat constructor.
Defined.

Lemma setViewWidth_without_line_witness :
  fst (setViewWidth optionalLine (px 1200) (run optionalLine lineGone (initial (Some (px 400)))))
  = Abrupt LineWidthNotInitialized.
Proof.
  pose proof (@setViewWidth_without_line _ optionalLine lineGone (Some (px 400)) (px 1200)) as H.
  cbv zeta in H. rewrite H.
  - reflexivity.
  - intros callback args I. vm_compute in I. destruct I.
  - reflexivity.
Defined.

Lemma setViewWidth_progress_is_a_prefix_witness :
  exists n evs,
    emitted (snd (setViewWidth fixedLine (px 1200) gapUpToDate))
    = emitted gapUpToDate ++ ViewWidthChanged (px 1200) :: evs /\
    map leftGapEventTable evs = map Some (firstn n (Rec.keys (leftGap (store gapUpToDate)))) /\
    n = length (Rec.keys (leftGap (store gapUpToDate))).
Proof.
  pose proof (setViewWidth_progress_is_a_prefix fixedLine (px 1200) gapUpToDate) as H.
  cbv zeta in H. destruct H as [n [evs [A [B [_ D]]]]].
  exists n, evs. split; [exact A |]. split; [exact B |]. apply D. reflexivity.
Defined.

Lemma newLeftGap_within_bounds_witness :
  0 <= newLeftGap (px 700) (px 400) (px 1000) /\
  newLeftGap (px 700) (px 400) (px 1000) <= (px 1000 - px 400) / px 2.
Proof.
  apply newLeftGap_within_bounds. vm_compute. discriminate.
Defined.

Lemma newLeftGap_monotone_witness :
  newLeftGap (px 500) (px 400) (px 1000) <= newLeftGap (px 700) (px 400) (px 1000).
Proof.
  apply newLeftGap_monotone.
  - vm_compute. discriminate.
  - vm_compute. discriminate.
  - intro E. apply (proj2 (eqb_eq _ _)) in E. vm_compute in E. discriminate E.
  - intro E. apply (proj2 (eqb_eq _ _)) in E. vm_compute in E. discriminate E.
Defined.

Lemma plugin_store_invariants_witness :
  exists n : N, px 700 = px (Z.of_N n) /\ 0 <= px 700.
Proof.
  pose proof (plugin_store_invariants PluginFixture.api
                (PluginFixture.loaded ++ [FullwidthTablePlugin.CallSetTableWrapperWidth 2%nat])
                []) as H.
  cbv zeta in H. destruct H as [_ H].
  apply (H "t1"). reflexivity.
Defined.

Lemma plugin_error_kinds_witness :
  FullwidthTablePlugin.FromTableMap ViewWidthNotInitialized = FullwidthTablePlugin.TableIdNotFound \/
  FullwidthTablePlugin.FromTableMap ViewWidthNotInitialized
  = FullwidthTablePlugin.TableWrapperElementNotFound \/
  FullwidthTablePlugin.FromTableMap ViewWidthNotInitialized
  = FullwidthTablePlugin.FromTableMap ViewWidthNotInitialized \/
  FullwidthTablePlugin.FromTableMap ViewWidthNotInitialized
  = FullwidthTablePlugin.FromTableMap LineWidthNotInitialized.
Proof.
  pose proof (@plugin_error_kinds _ _ PluginFixture.api [] [] 2%nat) as H.
  cbv zeta in H.
  assert (W : FullwidthTablePlugin.widgetsAreHTMLElements PluginFixture.api)
    by (intros tableId dom found _; reflexivity).
  destruct (H W) as [H1 _]. apply H1. reflexivity.
Defined.

Lemma plugin_storeViewSize_before_any_gap_witness :
  fst (FullwidthTablePlugin.storeViewSize PluginFixture.api 0%nat
         (FullwidthTablePlugin.pluginRun PluginFixture.api []
            (FullwidthTablePlugin.constructed PluginFixture.api [])))
  = FullwidthTablePlugin.Done.
Proof.
  pose proof (@plugin_storeViewSize_before_any_gap _ _ PluginFixture.api [] [] 0%nat 1%nat) as H.
  cbv zeta in H. rewrite H; reflexivity.
Defined.

Lemma plugin_table_measured_witness :
  fst (FullwidthTablePlugin.setTableWrapperWidth PluginFixture.api 2%nat
         (FullwidthTablePlugin.pluginRun PluginFixture.api PluginFixture.loaded
            (FullwidthTablePlugin.constructed PluginFixture.api [])))
  = FullwidthTablePlugin.Done.
Proof.
  pose proof (@plugin_table_measured _ _ PluginFixture.api PluginFixture.loaded [] 2%nat 3%nat
                                     "t1" (px (Z.of_N 1032) - (px 16 + px 16)) (px 400)) as H.
  cbv zeta in H.
  assert (N1 : "t1" <> "") by discriminate.
  match type of H with _ -> _ -> _ -> _ -> ?X -> _ => assert (N2 : X) by discriminate end.
  destruct (H eq_refl N1 eq_refl eq_refl N2 eq_refl eq_refl) as [G _].
  rewrite (G 2%nat eq_refl eq_refl). reflexivity.
Defined.

(** The plugin at work in the DOM of the examples: the view is measured,
    then the table; the DOM has been told both variables. *)
Example plugin_at_work :
  host (FullwidthTablePlugin.pluginRun PluginFixture.api
          (PluginFixture.loaded ++ [FullwidthTablePlugin.CallSetTableWrapperWidth 2%nat])
          (FullwidthTablePlugin.constructed PluginFixture.api []))
  = ["--plugin-fullwidth-table-view-width=npx";
     "Detected view width: n";
     "tableWrapperWidth of t1 updated: n";
     "leftGap of t1 updated: n";
     "--plugin-fullwidth-table-left-gap=npx"].
Proof. reflexivity. Qed.
